(** * To-Do list application: the task store and its file format

    A shallow embedding of [src/To-Do list app/main.cpp] (namespace [todo]):
    the classes [Task] and [CategorizedTask], the [TaskManager] with its four
    containers, the text file it loads and saves, and the conversion of a
    deadline into the integer used by the sorted listing.

    Conventions of the model.
    - [std::string] is [string]; characters are bytes ([ascii]).
    - Objects created by [new] live in a free store [heap], a finite map from
      addresses to objects; a [TaskBase *] is an address.  [new] returns an
      address that is not live at that moment; an address freed by [delete]
      may be handed out again.
    - A member function that reads or writes through a pointer that is not
      live has undefined behaviour in C++; the model returns [Undefined].
    - [std::stoi] throws; the model returns [Throws].
    - [std::cout] is modelled by the list of the texts written to it, one
      entry per call of [display]. *)

From Stdlib Require Import ZArith Ascii List Lia.
From Stdlib Require OrderedTypeEx.
From stdpp Require Import base option list gmap sets strings sorting.

Local Open Scope Z_scope.

(** ** Outcomes of a call *)

Inductive exn := invalid_argument | out_of_range.

(** [NoFuel] is an artefact of the model: the only loop whose length is not
    given by a container, the line loop of [loadFromFile], runs on a counter.
    Lemma [loadFromFile_total] shows that [loadFromFile] never yields it. *)
Inductive outcome (A : Type) :=
  | Ok (a : A)
  | Throws (e : exn)
  | Undefined
  | NoFuel.
Arguments Ok {A} a.
Arguments Throws {A} e.
Arguments Undefined {A}.
Arguments NoFuel {A}.

#[global] Instance outcome_ret : MRet outcome := @Ok.
#[global] Instance outcome_bind : MBind outcome := λ A B f m,
  match m with
  | Ok a => f a
  | Throws e => Throws e
  | Undefined => Undefined
  | NoFuel => NoFuel
  end.

(** Reading through a pointer. *)
Definition deref {A} (o : option A) : outcome A :=
  match o with Some a => Ok a | None => Undefined end.

(** ** Strings *)

Fixpoint drop_chars (n : nat) (s : string) : string :=
  match n, s with
  | O, _ => s
  | S n', String _ r => drop_chars n' r
  | S _, EmptyString => EmptyString
  end.

(** [s.substr(pos)] for [pos <= s.size()], the only use in the source. *)
Definition substr (s : string) (pos : nat) : string := drop_chars pos s.

(** [s.rfind(pat, 0)]: the last occurrence that starts at index 0 or before,
    so index 0 if [s] begins with [pat], and [npos] ([None]) otherwise. *)
Definition rfind0 (s pat : string) : option nat :=
  if String.prefix pat s then Some O else None.

(** [s.find(q)]: index of the first occurrence of [q] in [s]. *)
Fixpoint find (s q : string) : option nat :=
  if String.prefix q s then Some O
  else match s with
       | EmptyString => None
       | String _ r => S <$> find r q
       end.

Fixpoint spaces (n : nat) : string :=
  match n with O => EmptyString | S n' => String " " (spaces n') end.

(** [os << std::left << std::setw(w) << s]: pads on the right with the fill
    character up to width [w]; a longer text is written whole. *)
Definition setw_left (w : nat) (s : string) : string :=
  s +:+ spaces (w - String.length s).

Definition endl : string := String "010" EmptyString.

(** ** Input streams ([std::istringstream], [std::ifstream]) *)

Record istream := mkIstream {
  buf : string;        (* the characters not read yet *)
  eofbit : bool;
  failbit : bool
}.

Definition istringstream (s : string) : istream :=
  {| buf := s; eofbit := false; failbit := false |}.

(** [bool(ins)], that is [!ins.fail()]. *)
Definition stream_ok (ins : istream) : bool := negb (failbit ins).

(** Characters up to the first [delim]; [Some rest] when the delimiter was
    found (it is consumed), [None] when the end of the input came first. *)
Fixpoint read_until (delim : ascii) (s : string) : string * option string :=
  match s with
  | EmptyString => (EmptyString, None)
  | String c r =>
      if Ascii.eqb c delim then (EmptyString, Some r)
      else let '(x, r') := read_until delim r in (String c x, r')
  end.

(** [std::getline(ins, str, delim)].  The sentry fails when any state bit is
    set: [failbit] is set and [str] is left alone.  Otherwise [str] is erased
    and characters are moved to it until the delimiter (extracted, not
    stored) or the end of input ([eofbit]); [failbit] is set when nothing at
    all was extracted. *)
Definition getline (ins : istream) (str : string) (delim : ascii)
  : istream * string :=
  if eofbit ins || failbit ins
  then ({| buf := buf ins; eofbit := eofbit ins; failbit := true |}, str)
  else match read_until delim (buf ins) with
       | (x, Some rest) =>
           ({| buf := rest; eofbit := false; failbit := false |}, x)
       | (x, None) =>
           ({| buf := EmptyString; eofbit := true;
               failbit := Nat.eqb (String.length x) 0 |}, x)
       end.

(** ** [std::stoi] *)

Definition isspace (c : ascii) : bool :=
  let n := nat_of_ascii c in
  Nat.eqb n 32 || (Nat.leb 9 n && Nat.leb n 13).

Definition isdigit (c : ascii) : bool :=
  let n := nat_of_ascii c in Nat.leb 48 n && Nat.leb n 57.

Definition digit_value (c : ascii) : Z := Z.of_nat (nat_of_ascii c) - 48.

Fixpoint skip_spaces (s : string) : string :=
  match s with
  | String c r => if isspace c then skip_spaces r else s
  | EmptyString => s
  end.

(** The leading run of decimal digits. *)
Fixpoint leading_digits (s : string) : list ascii :=
  match s with
  | String c r => if isdigit c then c :: leading_digits r else []
  | EmptyString => []
  end.

Definition digits_value (ds : list ascii) : Z :=
  fold_left (λ acc c, 10 * acc + digit_value c) ds 0.

Definition INT_MIN : Z := - 2 ^ 31.
Definition INT_MAX : Z := 2 ^ 31 - 1.

(** [std::stoi(s)] in base 10: [strtol] skips white space, takes one optional
    sign and the digits that follow, and ignores whatever comes after them.
    No digit: [std::invalid_argument].  A value outside [int]:
    [std::out_of_range]. *)
Definition strtol_sign (s : string) : bool * string :=
  match s with
  | String "+" r => (false, r)
  | String "-" r => (true, r)
  | _ => (false, s)
  end.

Definition stoi (s : string) : outcome Z :=
  let '(neg, s2) := strtol_sign (skip_spaces s) in
  match leading_digits s2 with
  | [] => Throws invalid_argument
  | ds =>
      let v := if neg : bool then - digits_value ds else digits_value ds in
      if (INT_MIN <=? v) && (v <=? INT_MAX) then Ok v
      else Throws out_of_range
  end.

(** ** [TaskManager::dateToInt] *)

Definition dateToInt (date : string) : outcome Z :=
  let ss := istringstream date in
  let '(ss, day) := getline ss EmptyString "." in
  let '(ss, month) := getline ss EmptyString "." in
  let '(ss, year) := getline ss EmptyString "." in
  let day := if Nat.eqb (String.length day) 1 then "0" +:+ day else day in
  let month :=
    if Nat.eqb (String.length month) 1 then "0" +:+ month else month in
  stoi (year +:+ month +:+ day).

(** ** The task classes

    [TaskBase] is the abstract interface; [Task] and [CategorizedTask] are
    its two implementations.  A value of [TaskBase.t] is an object of one of
    the two dynamic types, and each function below is the virtual member of
    that name, dispatched on the constructor. *)

Module TaskBase.

Inductive t :=
  | Task (title deadline : string) (completed : bool)
  | CategorizedTask (title deadline category : string) (completed : bool).

Definition getTitle (o : t) : string :=
  match o with Task ti _ _ | CategorizedTask ti _ _ _ => ti end.

Definition getDeadline (o : t) : string :=
  match o with Task _ d _ | CategorizedTask _ d _ _ => d end.

Definition getCategory (o : t) : string :=
  match o with Task _ _ _ => EmptyString | CategorizedTask _ _ cat _ => cat end.

Definition isCompleted (o : t) : bool :=
  match o with Task _ _ c | CategorizedTask _ _ _ c => c end.

Definition markCompleted (o : t) : t :=
  match o with
  | Task ti d _ => Task ti d true
  | CategorizedTask ti d cat _ => CategorizedTask ti d cat true
  end.

Definition toFileString (o : t) : string :=
  match o with
  | Task ti d c => ti +:+ ";" +:+ d +:+ ";" +:+ (if c then "1" else "0")
  | CategorizedTask ti d cat c =>
      ti +:+ ";" +:+ d +:+ ";" +:+ (if c then "1" else "0") +:+ ";" +:+ cat
  end.

(** The text one call of [display] writes to [std::cout]. *)
Definition display (o : t) : string :=
  match o with
  | Task ti d c =>
      (if c then "[X] " else "[ ] ") +:+ setw_left 20 ti
      +:+ " | Due: " +:+ setw_left 12 d +:+ endl
  | CategorizedTask ti d cat c =>
      (if c then "[X] " else "[ ] ") +:+ setw_left 20 ti
      +:+ " | Due: " +:+ setw_left 12 d
      +:+ " | Category: " +:+ cat +:+ endl
  end.

#[global] Instance eq_dec : EqDecision t.
Proof. solve_decision. Defined.

End TaskBase.

Import TaskBase (Task, CategorizedTask).

(** ** The state of a run: the free store and the [TaskManager] *)

Abbreviation ptr := positive.

Record State := mkState {
  heap : gmap positive TaskBase.t;       (* objects created by new *)
  tasks : list ptr;                     (* Active tasks *)
  completedTasks : list ptr;            (* Completed tasks *)
  titleMap : gmap string positive;      (* Map for quick title lookup *)
  categories : gset string              (* Set of all unique categories *)
}.

(** A [TaskManager] as its constructor leaves it, with nothing allocated. *)
Definition empty_state : State :=
  {| heap := ∅; tasks := []; completedTasks := []; titleMap := ∅;
     categories := ∅ |}.

(** [new T(...)]: the object is placed at an address that is not live. *)
Definition new (o : TaskBase.t) (s : State) : ptr * State :=
  let p := fresh (dom (heap s)) in
  (p, {| heap := <[p := o]> (heap s); tasks := tasks s;
         completedTasks := completedTasks s; titleMap := titleMap s;
         categories := categories s |}).

(** [v.erase(std::remove(v.begin(), v.end(), p), v.end())] *)
Definition erase_remove (p : ptr) (v : list ptr) : list ptr :=
  filter (λ q, q ≠ p) v.

Definition addTask (task : ptr) (s : State) : outcome State :=
  t ← deref (heap s !! task);
  let cat := TaskBase.getCategory t in
  Ok {| heap := heap s;
        tasks := tasks s ++ [task];
        completedTasks := completedTasks s;
        titleMap := <[TaskBase.getTitle t := task]> (titleMap s);
        categories := if Nat.eqb (String.length cat) 0 then categories s
                      else {[cat]} ∪ categories s |}.

Definition push_completed (task : ptr) (s : State) : State :=
  {| heap := heap s; tasks := tasks s;
     completedTasks := completedTasks s ++ [task];
     titleMap := titleMap s; categories := categories s |}.

Definition markCompleted (title : string) (s : State) : outcome State :=
  match titleMap s !! title with
  | None => Ok s
  | Some p =>
      t ← deref (heap s !! p);
      Ok {| heap := <[p := TaskBase.markCompleted t]> (heap s);
            tasks := erase_remove p (tasks s);
            completedTasks := completedTasks s ++ [p];
            titleMap := delete title (titleMap s);
            categories := categories s |}
  end.

Definition deleteTask (title : string) (s : State) : outcome State :=
  match titleMap s !! title with
  | None => Ok s
  | Some task =>
      _ ← deref (heap s !! task);
      Ok {| heap := delete task (heap s);
            tasks := erase_remove task (tasks s);
            completedTasks := completedTasks s;
            titleMap := delete title (titleMap s);
            categories := categories s |}
  end.

(** *** Listings *)

Fixpoint for_each {A S : Type} (f : A → S → outcome S) (l : list A) (s : S)
  : outcome S :=
  match l with
  | [] => Ok s
  | x :: r => s' ← f x s; for_each f r s'
  end.

(** The texts written by [for (t : v) t->display();]. *)
Definition display_all (s : State) (v : list ptr) : outcome (list string) :=
  for_each (λ p out, t ← deref (heap s !! p); Ok (out ++ [TaskBase.display t]))
           v [].

(** The comparison handed to [std::sort] by [viewTasks].  C++ leaves open
    which operand of [<] is evaluated first; the model takes the left one,
    which matters only for which of two exceptions is the one thrown. *)
Definition deadline_less (s : State) (a b : ptr) : outcome bool :=
  ta ← deref (heap s !! a);
  tb ← deref (heap s !! b);
  x ← dateToInt (TaskBase.getDeadline ta);
  y ← dateToInt (TaskBase.getDeadline tb);
  Ok (x <? y).

(** [std::sort] fixes neither the order of elements that compare equal nor
    the sequence of comparisons.  The model is an insertion sort, one
    conforming instance: it makes no comparison on fewer than two elements
    and compares every element otherwise, so a deadline that does not
    convert makes the sorted listing throw exactly when there are two tasks
    or more. *)
Fixpoint sort_insert (less : ptr → ptr → outcome bool) (x : ptr)
  (l : list ptr) : outcome (list ptr) :=
  match l with
  | [] => Ok [x]
  | y :: r =>
      b ← less y x;
      if b : bool then r' ← sort_insert less x r; Ok (y :: r')
      else Ok (x :: y :: r)
  end.

Definition sort (less : ptr → ptr → outcome bool) (l : list ptr)
  : outcome (list ptr) :=
  for_each (sort_insert less) l [].

Definition viewTasks (sorted : bool) (s : State) : outcome (list string) :=
  let temp := tasks s in
  temp ← (if sorted then sort (deadline_less s) temp else Ok temp);
  display_all s temp.

Definition viewCompleted (s : State) : outcome (list string) :=
  display_all s (completedTasks s).

Definition searchTask (query : string) (s : State) : outcome (list string) :=
  for_each (λ p out,
              t ← deref (heap s !! p);
              Ok (match find (TaskBase.getTitle t) query with
                  | Some _ => out ++ [TaskBase.display t]
                  | None => out
                  end))
           (tasks s) [].

(** *** Categories

    A [std::set<std::string>] is visited in ascending order of
    [std::less<std::string>]: byte by byte, bytes as unsigned numbers, a
    proper prefix before the longer text.  The order being total and
    antisymmetric, the ascending list of a set is unique; it is computed
    here by sorting the elements. *)
Definition string_le (a b : string) : Prop := String.leb a b = true.

#[global] Instance string_le_dec (a b : string) : Decision (string_le a b).
Proof. unfold string_le. apply _. Defined.

Definition set_in_order (X : gset string) : list string :=
  merge_sort string_le (elements X).

(** The lines [for (cat : categories) std::cout << " - " << cat << endl]. *)
Definition category_lines (s : State) : list string :=
  (λ cat, " - " +:+ cat +:+ endl) <$> set_in_order (categories s).

Definition listAllCategories (s : State) : list string :=
  ("Available categories:" +:+ endl) :: category_lines s.

Definition filterByCategory (category : string) (s : State)
  : outcome (list string) :=
  for_each (λ p out,
              t ← deref (heap s !! p);
              Ok (if String.eqb (TaskBase.getCategory t) category
                  then out ++ [TaskBase.display t]
                  else out))
           (tasks s)
           ((("Available categories to choose from:" +:+ endl)
               :: category_lines s)
            ++ [endl +:+ "Showing tasks for category: " +:+ category +:+ endl]).

(** *** The destructor

    [delete t]: the object must be live; deleting through a pointer whose
    object is gone already is undefined. *)
Definition delete_object (t : ptr) (s : State) : outcome State :=
  _ ← deref (heap s !! t);
  Ok {| heap := delete t (heap s); tasks := tasks s;
        completedTasks := completedTasks s; titleMap := titleMap s;
        categories := categories s |}.

(** [~TaskManager()]: every pointer of [tasks], then every pointer of
    [completedTasks], is deleted.  What matters of the result is the free
    store it leaves. *)
Definition destroy (s : State) : outcome State :=
  s ← for_each delete_object (tasks s) s;
  for_each delete_object (completedTasks s) s.

(** *** [Task::operator+] and [operator<<]

    Both are members of [Task], hence apply to a [CategorizedTask] too, seen
    as the [Task] it derives from.  The sum is built by the constructor
    [Task(t, d)], whose completed flag defaults to [false]. *)
Definition Task_plus (a other : TaskBase.t) : TaskBase.t :=
  Task (TaskBase.getTitle a +:+ " & " +:+ TaskBase.getTitle other)
       (TaskBase.getDeadline a) false.

Definition Task_print (task : TaskBase.t) : string :=
  (if TaskBase.isCompleted task then "[X] " else "[ ] ")
  +:+ TaskBase.getTitle task +:+ " (Due: " +:+ TaskBase.getDeadline task
  +:+ ")".

(** ** Files

    A file system holds the text of the files that exist and the set of
    paths that cannot be opened for writing (missing directory, permissions).
    Lines end with the character written by [std::endl]. *)

Record FileSystem := mkFS {
  files : gmap string string;
  unwritable : gset string
}.

(** [std::ifstream ifs(filename)]: a file that cannot be opened leaves the
    stream with [failbit] set. *)
Definition ifstream (fs : FileSystem) (filename : string) : istream :=
  match files fs !! filename with
  | Some text => {| buf := text; eofbit := false; failbit := false |}
  | None => {| buf := EmptyString; eofbit := false; failbit := true |}
  end.

(** An open [std::ofstream]: the path it writes to and its [failbit]. *)
Record ostream := mkOstream {
  opath : string;
  ofailbit : bool
}.

(** [std::ofstream ofs(filename)]: opening truncates the file, or creates it;
    when the path cannot be opened [failbit] is set and nothing else happens:
    the stream throws only if [exceptions()] was asked for, and the source
    never asks. *)
Definition ofstream (filename : string) (fs : FileSystem)
  : ostream * FileSystem :=
  if decide (filename ∈ unwritable fs)
  then ({| opath := filename; ofailbit := true |}, fs)
  else ({| opath := filename; ofailbit := false |},
        {| files := <[filename := EmptyString]> (files fs);
           unwritable := unwritable fs |}).

(** [ofs << text]: no effect on a stream whose [failbit] is set. *)
Definition put (ofs : ostream) (text : string) (fs : FileSystem)
  : FileSystem :=
  if ofailbit ofs then fs
  else {| files := alter (λ old, old +:+ text) (opath ofs) (files fs);
          unwritable := unwritable fs |}.

(** [saveToFile] returns [void] and looks at no stream state: what the caller
    gets back is the file system, changed or not. *)
Definition saveToFile (filename : string) (s : State) (fs : FileSystem)
  : outcome FileSystem :=
  let '(ofs, fs) := ofstream filename fs in
  fs ← for_each (λ p fs,
                   t ← deref (heap s !! p);
                   Ok (put ofs endl (put ofs (TaskBase.toFileString t) fs)))
                (tasks s) fs;
  for_each (λ p fs,
              t ← deref (heap s !! p);
              Ok (put ofs endl
                    (put ofs (TaskBase.toFileString t) (put ofs "DONE:" fs))))
           (completedTasks s) fs.

(** The body of the [while] loop of [loadFromFile], for the line just read. *)
Definition loadLine (line : string) (s : State) : outcome State :=
  let '(isDone, line) :=
    match rfind0 line "DONE:" with
    | Some O => (true, substr line 5)
    | _ => (false, line)
    end in
  let ss := istringstream line in
  let '(ss, title) := getline ss EmptyString ";" in
  let '(ss, deadline) := getline ss EmptyString ";" in
  let '(ss, completedStr) := getline ss EmptyString ";" in
  let completed := String.eqb completedStr "1" in
  let '(ss, category) := getline ss EmptyString ";" in
  if stream_ok ss then
    let '(t, s) := new (CategorizedTask title deadline category completed) s in
    if isDone : bool then Ok (push_completed t s) else addTask t s
  else
    let '(t, s) := new (Task title deadline completed) s in
    if isDone : bool then Ok (push_completed t s) else addTask t s.

(** [while (getline(ifs, line)) { ... }].  The body shortens its copy of
    [line] after a [DONE:] marker; the next [getline] erases [line] or ends
    the loop, so the text carried over is never read. *)
Fixpoint loadLoop (fuel : nat) (ifs : istream) (line : string) (s : State)
  : outcome State :=
  match fuel with
  | O => NoFuel
  | S fuel' =>
      let '(ifs, line) := getline ifs line "010" in
      if stream_ok ifs then s ← loadLine line s; loadLoop fuel' ifs line s
      else Ok s
  end.

(** Every turn of the loop but the last two removes a line end from the
    input, so the length of the file plus two bounds the number of turns. *)
Definition loadFromFile (filename : string) (fs : FileSystem) (s : State)
  : outcome State :=
  let ifs := ifstream fs filename in
  loadLoop (String.length (buf ifs) + 2) ifs EmptyString s.

(** ** Runs

    The commands of the menu that change the store.  [Add o] is
    [addTask(new T(...))] for the object [o], as [main] and [loadFromFile]
    call it. *)

Inductive command :=
  | Add (o : TaskBase.t)
  | Complete (title : string)
  | Delete (title : string)
  | Load (filename : string) (fs : FileSystem).

Definition add (o : TaskBase.t) (s : State) : outcome State :=
  let '(p, s) := new o s in addTask p s.

Definition step (c : command) (s : State) : outcome State :=
  match c with
  | Add o => add o s
  | Complete title => markCompleted title s
  | Delete title => deleteTask title s
  | Load filename fs => loadFromFile filename fs s
  end.

Definition run (cs : list command) (s : State) : outcome State :=
  for_each step cs s.

(** * Properties *)

(** ** Vocabulary of the statements *)

(** The objects a list of pointers refers to, when all of them are live. *)
Definition objects (s : State) (v : list ptr) : option (list TaskBase.t) :=
  mapM (λ p, heap s !! p) v.

(** No pointer held by the manager dangles, every entry of [titleMap] is
    filed under the title of the object it points to, and no completed task
    is indexed.  The empty manager has the property and every command keeps
    it ([wf_run]). *)
Record wf (s : State) : Prop := mkWf {
  wf_tasks : ∀ p, p ∈ tasks s → is_Some (heap s !! p);
  wf_completed : ∀ p, p ∈ completedTasks s → is_Some (heap s !! p);
  wf_titleMap : ∀ title p, titleMap s !! title = Some p →
    (∃ t, heap s !! p = Some t ∧ TaskBase.getTitle t = title)
    ∧ p ∉ completedTasks s
}.

(** [q] occurs in [s] as a run of consecutive characters. *)
Definition occurs (q s : string) : Prop :=
  ∃ pre post, s = pre +:+ q +:+ post.

(** The fields of [s] between occurrences of [delim]; never empty. *)
Fixpoint split_on (delim : ascii) (s : string) : list string :=
  match s with
  | EmptyString => [EmptyString]
  | String c r =>
      if Ascii.eqb c delim then EmptyString :: split_on delim r
      else match split_on delim r with
           | x :: xs => String c x :: xs
           | [] => [String c EmptyString]
           end
  end.

Fixpoint string_forall (P : ascii → bool) (s : string) : bool :=
  match s with
  | EmptyString => true
  | String c r => P c && string_forall P r
  end.

(** [c] does not occur in [s]. *)
Definition free_of (c : ascii) (s : string) : bool :=
  string_forall (λ x, negb (Ascii.eqb x c)) s.

(** The reading of "three dot-separated numeric fields" taken for the
    deadline format DD.MM.YYYY: exactly three fields, each a non-empty run
    of decimal digits. *)
Definition numeric_field (s : string) : bool :=
  negb (Nat.eqb (String.length s) 0) && string_forall isdigit s.

Definition spec_three_numeric_fields (d : string) : bool :=
  match split_on "." d with
  | [a; b; c] => numeric_field a && numeric_field b && numeric_field c
  | _ => false
  end.

(** A day or month of one character gets a leading zero. *)
Definition pad2 (s : string) : string :=
  if Nat.eqb (String.length s) 1 then "0" +:+ s else s.

(** The text year+month+day in terms of the dot-separated fields of the
    deadline, a missing field being empty and fields after the third
    ignored. *)
Definition date_text (d : string) : string :=
  let fields := split_on "." d in
  nth 2 fields EmptyString +:+ pad2 (nth 1 fields EmptyString)
  +:+ pad2 (nth 0 fields EmptyString).

(** [k] begins with white space (possibly none), then at most one sign,
    then a decimal digit. *)
Definition starts_with_number (k : string) : Prop :=
  ∃ ws sg c rest,
    k = ws +:+ sg +:+ String c rest
    ∧ string_forall isspace ws = true
    ∧ (sg = EmptyString ∨ sg = "+" ∨ sg = "-")
    ∧ isdigit c = true.

(** *** Loading, seen as a list of records

    [add_done] is what [loadFromFile] does with a [DONE:] line: the new
    object goes to [completedTasks] and nowhere else. *)
Definition add_done (o : TaskBase.t) (s : State) : outcome State :=
  let '(p, s) := new o s in Ok (push_completed p s).

(** The object read from a line once the [DONE:] marker is off: the part
    of [loadLine] between the marker test and the allocation. *)
Definition read_record (line : string) : TaskBase.t :=
  let ss := istringstream line in
  let '(ss, title) := getline ss EmptyString ";" in
  let '(ss, deadline) := getline ss EmptyString ";" in
  let '(ss, completedStr) := getline ss EmptyString ";" in
  let completed := String.eqb completedStr "1" in
  let '(ss, category) := getline ss EmptyString ";" in
  if stream_ok ss then CategorizedTask title deadline category completed
  else Task title deadline completed.

(** The object a line of the file stands for, and whether it carried the
    [DONE:] marker. *)
Definition parse_line (line : string) : bool * TaskBase.t :=
  let '(isDone, line) :=
    match rfind0 line "DONE:" with
    | Some O => (true, substr line 5)
    | _ => (false, line)
    end in
  (isDone, read_record line).

Fixpoint chop_last_empty (l : list string) : list string :=
  match l with
  | [] => []
  | x :: r =>
      match r with
      | [] => if Nat.eqb (String.length x) 0 then [] else [x]
      | _ :: _ => x :: chop_last_empty r
      end
  end.

(** The lines of a text: the pieces between line ends, without the empty
    piece after a final line end. *)
Definition lines_of (text : string) : list string :=
  chop_last_empty (split_on "010" text).

(** What a run does to the store, one object at a time. *)
Inductive action :=
  | AAdd (o : TaskBase.t)
  | AAddDone (o : TaskBase.t)
  | AComplete (title : string)
  | ADelete (title : string).

Definition act (a : action) (s : State) : outcome State :=
  match a with
  | AAdd o => add o s
  | AAddDone o => add_done o s
  | AComplete title => markCompleted title s
  | ADelete title => deleteTask title s
  end.

Definition action_of_line (line : string) : action :=
  let '(isDone, o) := parse_line line in
  if isDone : bool then AAddDone o else AAdd o.

Definition actions_of (c : command) : list action :=
  match c with
  | Add o => [AAdd o]
  | Complete title => [AComplete title]
  | Delete title => [ADelete title]
  | Load filename fs =>
      match files fs !! filename with
      | Some text => action_of_line <$> lines_of text
      | None => []
      end
  end.

(** The command puts a task with this title among the active ones. *)
Definition adds_title (title : string) (c : command) : Prop :=
  ∃ o, AAdd o ∈ actions_of c ∧ TaskBase.getTitle o = title.

(** A live object that [titleMap] does not point to keeps its place:
    whichever list holds it, and its contents. *)
Definition unindexed (p : ptr) (t : TaskBase.t) (s : State) : Prop :=
  heap s !! p = Some t ∧ ∀ title, titleMap s !! title ≠ Some p.

(** The store built by adding the objects [os] to the empty store: the
    active list points to them in order, without repetition, and the entry
    of a title points to the last object added with that title. *)
Record indexes (os : list TaskBase.t) (s : State) : Prop := mkIndexes {
  ix_objects : Forall2 (λ p o, heap s !! p = Some o) (tasks s) os;
  ix_nodup : NoDup (tasks s);
  ix_dom : dom (titleMap s) = list_to_set (TaskBase.getTitle <$> os);
  ix_last : ∀ title p,
    titleMap s !! title = Some p ↔
    ∃ i o, tasks s !! i = Some p ∧ os !! i = Some o
           ∧ TaskBase.getTitle o = title
           ∧ ∀ j o', (i < j)%nat → os !! j = Some o'
                     → TaskBase.getTitle o' ≠ title
}.

(** The text of a file with these lines, each ended by [std::endl]. *)
Fixpoint unlines (ls : list string) : string :=
  match ls with
  | [] => EmptyString
  | l :: r => l +:+ endl +:+ unlines r
  end.

(** No field holds the separator of fields or the end of line. *)
Definition storable (o : TaskBase.t) : bool :=
  let ok s := free_of ";" s && free_of "010" s in
  ok (TaskBase.getTitle o) && ok (TaskBase.getDeadline o)
  && ok (TaskBase.getCategory o).

(** What the file keeps of an object. *)
Definition fields_of (o : TaskBase.t) : string * string * bool * string :=
  (TaskBase.getTitle o, TaskBase.getDeadline o, TaskBase.isCompleted o,
   TaskBase.getCategory o).

(** A [CategorizedTask] with an empty category is written with an empty
    fourth field and read back as a [Task]. *)
Definition reloaded (o : TaskBase.t) : TaskBase.t :=
  match o with
  | CategorizedTask ti d EmptyString c => Task ti d c
  | _ => o
  end.

(** What [std::sort] guarantees of its result under the comparison of
    [viewTasks]: every comparison succeeds, and no element compares less
    than an element placed before it. *)
Definition sorted_by_deadline (l : list TaskBase.t) : Prop :=
  ∀ i j a b, (i < j)%nat → l !! i = Some a → l !! j = Some b →
    ∃ ka kb, dateToInt (TaskBase.getDeadline a) = Ok ka
             ∧ dateToInt (TaskBase.getDeadline b) = Ok kb
             ∧ ¬ (kb < ka).

(** Every live object is held by exactly one of the two lists, once. *)
Record owned (s : State) : Prop := mkOwned {
  owned_nodup : NoDup (tasks s ++ completedTasks s);
  owned_live : ∀ p, is_Some (heap s !! p) ↔ p ∈ tasks s ++ completedTasks s
}.

(** The empty text is no category, and the category of every active task
    that has one is known. *)
Record categories_ok (s : State) : Prop := mkCategoriesOk {
  cat_nonempty : EmptyString ∉ categories s;
  cat_active : ∀ p t, p ∈ tasks s → heap s !! p = Some t →
    TaskBase.getCategory t ≠ EmptyString →
    TaskBase.getCategory t ∈ categories s
}.

(** Every object of the completed list carries the completed flag. *)
Definition completed_flagged (s : State) : Prop :=
  ∀ p t, p ∈ completedTasks s → heap s !! p = Some t →
    TaskBase.isCompleted t = true.

(** The number a run of decimal digits denotes. *)
Definition number_of (s : string) : Z :=
  digits_value (String.list_ascii_of_string s).

(** A text of [lo] to [hi] decimal digits. *)
Definition digits_between (lo hi : nat) (s : string) : Prop :=
  string_forall isdigit s = true
  ∧ (lo ≤ String.length s)%nat ∧ (String.length s ≤ hi)%nat.

(** The key of the task a pointer refers to. *)
Definition key_of (s : State) (p : ptr) : outcome Z :=
  t ← deref (heap s !! p); dateToInt (TaskBase.getDeadline t).

(** Both keys exist and the first is not above the second. *)
Definition key_le (s : State) (a b : ptr) : Prop :=
  ∃ ka kb, key_of s a = Ok ka ∧ key_of s b = Ok kb ∧ ka ≤ kb.

(** A store of two tasks, the first with a deadline that is no date. *)
Definition undated_state : State :=
  {| heap := {[ 1%positive := Task "Call back" "soon" false;
                2%positive := Task "Buy milk" "01.01.2025" false ]};
     tasks := [1%positive; 2%positive];
     completedTasks := [];
     titleMap := {[ "Call back" := 1%positive; "Buy milk" := 2%positive ]};
     categories := ∅ |}.

(** The three tasks of the sorting scenario, in the order the deadlines are
    given. *)
Definition task_jan : TaskBase.t := Task "first" "1.1.2024" false.
Definition task_mar : TaskBase.t := Task "second" "15.03.2023" false.
Definition task_feb : TaskBase.t := Task "third" "02.02.2024" false.
Definition three_deadlines : list TaskBase.t := [task_jan; task_mar; task_feb].

(** A short session and the store it leaves: two tasks share the title
    "Report", and "Call" has been completed. *)
Definition sample_commands : list command :=
  [Add (Task "Buy milk" "01.01.2025" false);
   Add (CategorizedTask "Report" "10.10.2024" "Work" false);
   Add (CategorizedTask "Report" "11.10.2024" "Work" false);
   Add (CategorizedTask "Call" "1.1.2024" "Home" false);
   Complete "Call"].

Definition sample_state : State :=
  {| heap := {[ 1%positive := Task "Buy milk" "01.01.2025" false;
                2%positive := CategorizedTask "Report" "10.10.2024" "Work" false;
                3%positive := CategorizedTask "Report" "11.10.2024" "Work" false;
                4%positive := CategorizedTask "Call" "1.1.2024" "Home" true ]};
     tasks := [1%positive; 2%positive; 3%positive];
     completedTasks := [4%positive];
     titleMap := {[ "Buy milk" := 1%positive; "Report" := 3%positive ]};
     categories := {[ "Work"; "Home" ]} |}.

(** A file system with one saved file and one path that cannot be written. *)
Definition sample_fs : FileSystem :=
  {| files := {[ "tasks.txt" := "DONE:Report;10.10.2024;1;Work" ]};
     unwritable := {[ "/nonexistent/tasks.txt" ]} |}.

(** ** Sorting by deadline *)

Ltac deadline_inversion H i j :=
  let ka := fresh "ka" in
  let kb := fresh "kb" in
  let Ha := fresh "Ha" in
  let Hb := fresh "Hb" in
  let Hle := fresh "Hle" in
  destruct (H i j _ _ ltac:(lia) eq_refl eq_refl)
    as (ka & kb & Ha & Hb & Hle);
  vm_compute in Ha, Hb; injection Ha as <-; injection Hb as <-; lia.

(** C2, as amended.  The keys of the three deadlines are 20230315, 20240101
    and 20240202.  In whatever order the three tasks were added, the sorted
    listing shows 15.03.2023 first, then 1.1.2024, then 02.02.2024; and that
    order is the only arrangement of the three that meets the guarantee of
    [std::sort], so the result does not depend on how the sort is carried
    out. *)
Theorem sorted_listing_order (l : list TaskBase.t) :
  l ≡ₚ three_deadlines →
  dateToInt "15.03.2023" = Ok 20230315
  ∧ dateToInt "1.1.2024" = Ok 20240101
  ∧ dateToInt "02.02.2024" = Ok 20240202
  ∧ (∃ s, run (Add <$> l) empty_state = Ok s
          ∧ viewTasks true s
            = Ok (TaskBase.display <$> [task_mar; task_jan; task_feb]))
  ∧ (sorted_by_deadline l → l = [task_mar; task_jan; task_feb]).
Proof.
  intros Hl. do 3 (split; [reflexivity|]).
  symmetry in Hl. apply permutations_Permutation in Hl.
  vm_compute permutations in Hl.
  repeat (apply elem_of_cons in Hl as [->|Hl]);
    try (split;
         [eexists; split; [vm_compute; reflexivity|vm_compute; reflexivity]
         |intros Hsorted;
          first [reflexivity
                |exfalso;
                 first [deadline_inversion Hsorted 0%nat 1%nat
                       |deadline_inversion Hsorted 0%nat 2%nat
                       |deadline_inversion Hsorted 1%nat 2%nat]]]).
  by apply elem_of_nil in Hl.
Qed.

Lemma sorted_listing_order_witness :
  dateToInt "15.03.2023" = Ok 20230315
  ∧ dateToInt "1.1.2024" = Ok 20240101
  ∧ dateToInt "02.02.2024" = Ok 20240202
  ∧ (∃ s, run (Add <$> three_deadlines) empty_state = Ok s
          ∧ viewTasks true s
            = Ok (TaskBase.display <$> [task_mar; task_jan; task_feb]))
  ∧ (sorted_by_deadline three_deadlines
     → three_deadlines = [task_mar; task_jan; task_feb]).
Proof. apply (sorted_listing_order three_deadlines). reflexivity. Defined.

(** C2 as stated fails: the key of 02.02.2024 is not below the key of
    1.1.2024; the order 15.03.2023, 02.02.2024, 1.1.2024 is not one that
    [std::sort] may leave, and it is not the order of the sorted listing. *)
Lemma sorted_listing_claimed_order_fails :
  ¬ (∃ a b c, dateToInt "15.03.2023" = Ok a ∧ dateToInt "02.02.2024" = Ok b
              ∧ dateToInt "1.1.2024" = Ok c ∧ a < b < c)
  ∧ ¬ sorted_by_deadline [task_mar; task_feb; task_jan]
  ∧ ∃ s, run (Add <$> three_deadlines) empty_state = Ok s
         ∧ viewTasks true s
           ≠ Ok (TaskBase.display <$> [task_mar; task_feb; task_jan]).
Proof.
  split; [|split].
  - intros (a & b & c & _ & Hb & Hc & Hlt).
    vm_compute in Hb, Hc. simplify_eq. lia.
  - intros Hsorted. deadline_inversion Hsorted 1%nat 2%nat.
  - eexists. split; [vm_compute; reflexivity|]. vm_compute. discriminate.
Qed.

(** ** Strings and streams *)

Lemma append_cons (c : ascii) (a b : string) :
  String c a +:+ b = String c (a +:+ b).
Proof. reflexivity. Qed.

Lemma append_nil_l (s : string) : EmptyString +:+ s = s.
Proof. reflexivity. Qed.

Lemma append_nil_r (s : string) : s +:+ EmptyString = s.
Proof.
  induction s as [|c s IH]; [done|]. by rewrite append_cons, IH.
Qed.

Lemma append_assoc (a b c : string) : (a +:+ b) +:+ c = a +:+ b +:+ c.
Proof.
  induction a as [|x a IH]; [done|]. by rewrite !append_cons, IH.
Qed.

Lemma read_until_found (delim : ascii) (x rest : string) :
  free_of delim x = true →
  read_until delim (x +:+ String delim rest) = (x, Some rest).
Proof.
  induction x as [|c x IH]; rewrite ?append_cons, ?append_nil_l; simpl.
  - by rewrite Ascii.eqb_refl.
  - intros [Hc Hx]%andb_prop. apply negb_true_iff in Hc.
    by rewrite Hc, IH.
Qed.

Lemma read_until_end (delim : ascii) (x : string) :
  free_of delim x = true → read_until delim x = (x, None).
Proof.
  induction x as [|c x IH]; simpl; [done|].
  intros [Hc Hx]%andb_prop. apply negb_true_iff in Hc.
  by rewrite Hc, IH.
Qed.

(** Reading up to the delimiter yields the first field, and leaves the
    remaining fields. *)
Lemma split_on_read_until (delim : ascii) (s : string) :
  split_on delim s =
    match read_until delim s with
    | (x, None) => [x]
    | (x, Some r) => x :: split_on delim r
    end.
Proof.
  induction s as [|c s IH]; simpl; [done|].
  destruct (Ascii.eqb c delim); [done|].
  rewrite IH. by destruct (read_until delim s) as [x [r|]].
Qed.

(** ** The deadline key *)

Lemma dateToInt_date_text (d : string) : dateToInt d = stoi (date_text d).
Proof.
  unfold dateToInt, date_text, getline, istringstream, pad2; simpl.
  rewrite (split_on_read_until "." d).
  destruct (read_until "." d) as [day [r1|]]; simpl; [|done].
  rewrite (split_on_read_until "." r1).
  destruct (read_until "." r1) as [month [r2|]]; simpl; [|done].
  rewrite (split_on_read_until "." r2).
  by destruct (read_until "." r2) as [year [r3|]].
Qed.

Lemma skip_spaces_split (s : string) :
  ∃ ws, s = ws +:+ skip_spaces s ∧ string_forall isspace ws = true.
Proof.
  induction s as [|c s (ws & Hs & Hws)]; simpl.
  - by exists EmptyString.
  - destruct (isspace c) eqn:Hc.
    + exists (String c ws). rewrite append_cons. simpl.
      by rewrite Hc, Hws, <-Hs.
    + by exists EmptyString.
Qed.

Lemma skip_spaces_app (ws rest : string) :
  string_forall isspace ws = true →
  skip_spaces (ws +:+ rest) = skip_spaces rest.
Proof.
  induction ws as [|c ws IH]; [done|]. rewrite append_cons. simpl.
  intros [Hc Hws]%andb_prop. rewrite Hc. auto.
Qed.

Lemma stoi_invalid_digits (k : string) :
  stoi k = Throws invalid_argument
  ↔ leading_digits (strtol_sign (skip_spaces k)).2 = [].
Proof.
  unfold stoi. destruct (strtol_sign (skip_spaces k)) as [neg s2]; simpl.
  destruct (leading_digits s2) as [|c ds]; [done|].
  split; [|done]. by case_match.
Qed.

Lemma leading_digits_nil (s : string) :
  leading_digits s = [] ↔ ¬ ∃ c rest, s = String c rest ∧ isdigit c = true.
Proof.
  destruct s as [|c r]; simpl.
  - split; [|done]. by intros _ (c & rest & ? & _).
  - destruct (isdigit c) eqn:Hc.
    + split; [done|]. intros []; eauto.
    + split; [|done]. intros _ (c' & rest & [= <- <-] & Hc'). congruence.
Qed.

Lemma isdigit_not_space (c : ascii) : isdigit c = true → isspace c = false.
Proof. destruct c as [[] [] [] [] [] [] [] []]; by vm_compute. Qed.

Lemma isdigit_not_sign (c : ascii) :
  isdigit c = true → c ≠ "+"%char ∧ c ≠ "-"%char.
Proof. destruct c as [[] [] [] [] [] [] [] []]; by vm_compute. Qed.

Lemma strtol_sign_digit (c : ascii) (rest : string) :
  isdigit c = true → strtol_sign (String c rest) = (false, String c rest).
Proof.
  intros [H1 H2]%isdigit_not_sign.
  destruct c as [[] [] [] [] [] [] [] []]; done.
Qed.

Lemma strtol_sign_cases (s : string) :
  (∃ r, s = String "+" r ∧ strtol_sign s = (false, r))
  ∨ (∃ r, s = String "-" r ∧ strtol_sign s = (true, r))
  ∨ (strtol_sign s = (false, s)).
Proof.
  destruct s as [|c r]; [by right; right|].
  destruct (decide (c = "+"%char)) as [->|Hp]; [left; eauto|].
  destruct (decide (c = "-"%char)) as [->|Hm]; [right; left; eauto|].
  right; right. destruct c as [[] [] [] [] [] [] [] []]; done.
Qed.

Lemma starts_with_number_digits (k : string) :
  starts_with_number k
  ↔ ∃ c rest, (strtol_sign (skip_spaces k)).2 = String c rest
              ∧ isdigit c = true.
Proof.
  split.
  - intros (ws & sg & c & rest & -> & Hws & Hsg & Hc).
    exists c, rest. split; [|done].
    rewrite skip_spaces_app by done.
    destruct Hsg as [->|[->| ->]]; rewrite ?append_nil_l, ?append_cons; simpl.
    + rewrite (isdigit_not_space c Hc). by rewrite strtol_sign_digit.
    + done.
    + done.
  - intros (c & rest & Hs2 & Hc).
    destruct (skip_spaces_split k) as (ws & Hk & Hws).
    destruct (strtol_sign_cases (skip_spaces k))
      as [(r & Hsk & Hsg)|[(r & Hsk & Hsg)|Hsg]];
      rewrite Hsg in Hs2; simpl in Hs2.
    + exists ws, "+", c, rest. rewrite Hk at 1. rewrite Hsk, Hs2.
      repeat split; auto.
    + exists ws, "-", c, rest. rewrite Hk at 1. rewrite Hsk, Hs2.
      repeat split; auto.
    + exists ws, EmptyString, c, rest. rewrite Hk at 1. rewrite Hs2.
      repeat split; auto.
Qed.

Lemma stoi_invalid_iff (k : string) :
  stoi k = Throws invalid_argument ↔ ¬ starts_with_number k.
Proof.
  rewrite stoi_invalid_digits, leading_digits_nil.
  apply not_iff_compat. symmetry. apply starts_with_number_digits.
Qed.

Lemma stoi_out_of_range_starts (k : string) :
  stoi k = Throws out_of_range → starts_with_number k.
Proof.
  intros Hr. apply starts_with_number_digits. revert Hr. unfold stoi.
  destruct (strtol_sign (skip_spaces k)) as [neg s2]; simpl.
  destruct s2 as [|c rest]; simpl; [done|].
  destruct (isdigit c) eqn:Hc; [eauto|done].
Qed.

Lemma digit_value_range (c : ascii) :
  isdigit c = true → 0 ≤ digit_value c ≤ 9.
Proof. destruct c as [[] [] [] [] [] [] [] []]; by vm_compute. Qed.

Lemma leading_digits_Forall (s : string) :
  Forall (λ c, isdigit c = true) (leading_digits s).
Proof.
  induction s as [|c s IH]; simpl; [constructor|].
  destruct (isdigit c) eqn:Hc; by constructor.
Qed.

Lemma leading_digits_length (s : string) :
  (length (leading_digits s) ≤ String.length s)%nat.
Proof.
  induction s as [|c s IH]; simpl; [lia|].
  destruct (isdigit c); simpl; lia.
Qed.

Lemma skip_spaces_length (s : string) :
  (String.length (skip_spaces s) ≤ String.length s)%nat.
Proof.
  induction s as [|c s IH]; simpl; [lia|].
  destruct (isspace c); simpl; lia.
Qed.

Lemma strtol_sign_length (s : string) :
  (String.length (strtol_sign s).2 ≤ String.length s)%nat.
Proof.
  destruct (strtol_sign_cases s) as [(r & -> & ->)|[(r & -> & ->)| ->]];
    simpl; lia.
Qed.

Lemma digits_value_bound (ds : list ascii) (acc : Z) :
  Forall (λ c, isdigit c = true) ds → 0 ≤ acc →
  0 ≤ fold_left (λ a c, 10 * a + digit_value c) ds acc
    < (acc + 1) * 10 ^ Z.of_nat (length ds).
Proof.
  intros Hds. revert acc.
  induction Hds as [|c ds Hc Hds IH]; intros acc Hacc; simpl fold_left.
  - simpl. lia.
  - pose proof (digit_value_range c Hc) as Hv.
    specialize (IH (10 * acc + digit_value c) ltac:(lia)).
    rewrite length_cons, Nat2Z.inj_succ, Z.pow_succ_r by lia.
    nia.
Qed.

Lemma stoi_out_of_range_length (k : string) :
  stoi k = Throws out_of_range → (10 ≤ String.length k)%nat.
Proof.
  unfold stoi.
  pose proof (skip_spaces_length k) as H1.
  pose proof (strtol_sign_length (skip_spaces k)) as H2.
  destruct (strtol_sign (skip_spaces k)) as [neg s2]; simpl in *.
  pose proof (leading_digits_length s2) as H3.
  pose proof (leading_digits_Forall s2) as H4.
  destruct (leading_digits s2) as [|c ds] eqn:Hds; [done|].
  rewrite <-Hds in *. clear Hds.
  pose proof (digits_value_bound _ 0 H4 ltac:(lia)) as H5.
  fold (digits_value (leading_digits s2)) in H5.
  case_match eqn:Hr; [done|]. intros _.
  destruct (decide (10 ≤ String.length k)%nat) as [|Hlt]; [done|exfalso].
  assert (10 ^ Z.of_nat (length (leading_digits s2)) ≤ 10 ^ 9)
    by (apply Z.pow_le_mono_r; lia).
  apply andb_false_iff in Hr. unfold INT_MIN, INT_MAX in Hr.
  destruct neg, Hr as [Hr|Hr]; lia.
Qed.

(** C3, as amended.  The conversion throws [std::invalid_argument] exactly
    when the text year+month+day handed to [std::stoi] (the first three
    dot-separated fields, a missing one empty, a day or month of one
    character padded with a zero) does not begin, after optional white space
    and at most one sign, with a decimal digit; and it throws
    [std::out_of_range] only when that text has ten characters or more. *)
Theorem dateToInt_failure (d : string) :
  (dateToInt d = Throws invalid_argument ↔ ¬ starts_with_number (date_text d))
  ∧ (dateToInt d = Throws out_of_range
     → starts_with_number (date_text d)
       ∧ (10 ≤ String.length (date_text d))%nat).
Proof.
  rewrite dateToInt_date_text. split; [apply stoi_invalid_iff|].
  intros Hr. split.
  - by apply stoi_out_of_range_starts.
  - by apply stoi_out_of_range_length.
Qed.

(** C3 as stated fails: deadlines that are not three dot-separated numeric
    fields are converted all the same. *)
Lemma dateToInt_accepts_malformed :
  spec_three_numeric_fields "2024" = false ∧ dateToInt "2024" = Ok 2024
  ∧ spec_three_numeric_fields "a" = false ∧ dateToInt "a" = Ok 0
  ∧ spec_three_numeric_fields "1.1.2024abc" = false
  ∧ dateToInt "1.1.2024abc" = Ok 2024.
Proof. repeat split; reflexivity. Qed.

Example spec_three_numeric_fields_date :
  spec_three_numeric_fields "15.03.2023" = true
  ∧ spec_three_numeric_fields "1.1.2024" = true
  ∧ spec_three_numeric_fields "1.1." = false
  ∧ spec_three_numeric_fields "tomorrow" = false
  ∧ dateToInt "tomorrow" = Throws invalid_argument
  ∧ dateToInt "1.1.99999999999" = Throws out_of_range.
Proof. repeat split; reflexivity. Qed.

(** ** The monad and the loops *)

Lemma for_each_app {A S : Type} (f : A → S → outcome S) (l1 l2 : list A)
  (s : S) :
  for_each f (l1 ++ l2) s = for_each f l1 s ≫= for_each f l2.
Proof.
  revert s. induction l1 as [|x l1 IH]; intros s; simpl; [done|].
  destruct (f x s) as [s'| | |]; simpl; auto.
Qed.

Lemma split_on_nonempty (delim : ascii) (s : string) : split_on delim s ≠ [].
Proof.
  rewrite split_on_read_until. by destruct (read_until delim s) as [x [r|]].
Qed.

Lemma lines_of_read_until (text : string) :
  lines_of text =
    match read_until "010" text with
    | (x, Some r) => x :: lines_of r
    | (x, None) => if Nat.eqb (String.length x) 0 then [] else [x]
    end.
Proof.
  unfold lines_of. rewrite split_on_read_until.
  destruct (read_until "010" text) as [x [r|]]; [|done].
  pose proof (split_on_nonempty "010" r).
  simpl. by destruct (split_on "010" r).
Qed.

Lemma read_until_length (delim : ascii) (s x r : string) :
  read_until delim s = (x, Some r) →
  (String.length r < String.length s)%nat.
Proof.
  revert x. induction s as [|c s IH]; intros x; simpl; [done|].
  destruct (Ascii.eqb c delim).
  - intros [= <- <-]. lia.
  - destruct (read_until delim s) as [x' [r'|]] eqn:Hs; [|done].
    intros [= <- <-]. specialize (IH _ eq_refl). lia.
Qed.

Lemma read_until_None (delim : ascii) (s x : string) :
  read_until delim s = (x, None) → x = s.
Proof.
  revert x. induction s as [|c s IH]; intros x; simpl; [congruence|].
  destruct (Ascii.eqb c delim); [done|].
  destruct (read_until delim s) as [x' [r'|]] eqn:Hs; [done|].
  intros [= <-]. f_equal. by apply IH.
Qed.

Lemma loadLoop_lines (fuel : nat) (text line : string) (s : State) :
  (String.length text + 2 ≤ fuel)%nat →
  loadLoop fuel {| buf := text; eofbit := false; failbit := false |} line s
  = for_each loadLine (lines_of text) s.
Proof.
  revert text line s.
  induction fuel as [|fuel IH]; intros text line s Hfuel; [lia|].
  rewrite lines_of_read_until. simpl. unfold getline; simpl.
  destruct (read_until "010" text) as [x [r|]] eqn:Hread.
  - unfold stream_ok; simpl.
    destruct (loadLine x s) as [s'| | |]; simpl; try done.
    apply IH. apply read_until_length in Hread. lia.
  - unfold stream_ok; simpl.
    destruct (Nat.eqb (String.length x) 0) eqn:Hx; simpl; [done|].
    destruct (loadLine x s) as [s'| | |]; simpl; try done.
    destruct fuel as [|fuel]; [|done].
    apply read_until_None in Hread as ->.
    destruct text; [done|]. simpl in *. lia.
Qed.

Lemma for_each_fmap {A B S : Type} (g : A → B) (f : B → S → outcome S)
  (l : list A) (s : S) :
  for_each f (g <$> l) s = for_each (λ x, f (g x)) l s.
Proof.
  revert s. induction l as [|x l IH]; intros s; simpl; [done|].
  destruct (f (g x) s); simpl; auto.
Qed.

Lemma for_each_ext {A S : Type} (f g : A → S → outcome S) (l : list A)
  (s : S) :
  (∀ x s, f x s = g x s) → for_each f l s = for_each g l s.
Proof.
  intros Hfg. revert s. induction l as [|x l IH]; intros s; simpl; [done|].
  rewrite Hfg. destruct (g x s); simpl; auto.
Qed.

Lemma loadLine_act (line : string) (s : State) :
  loadLine line s = act (action_of_line line) s.
Proof.
  unfold loadLine, action_of_line, parse_line, read_record.
  destruct (match rfind0 line "DONE:" with
            | Some O => (true, substr line 5)
            | _ => (false, line)
            end) as [isDone line'].
  destruct (getline (istringstream line') "" ";") as [ss1 title].
  destruct (getline ss1 "" ";") as [ss2 deadline].
  destruct (getline ss2 "" ";") as [ss3 completedStr].
  destruct (getline ss3 "" ";") as [ss4 category].
  by destruct (stream_ok ss4), isDone.
Qed.

Lemma loadFromFile_actions (filename : string) (fs : FileSystem) (s : State) :
  loadFromFile filename fs s = for_each act (actions_of (Load filename fs)) s.
Proof.
  unfold loadFromFile, ifstream; simpl.
  destruct (files fs !! filename) as [text|]; simpl; [|done].
  rewrite loadLoop_lines by lia. rewrite for_each_fmap.
  apply for_each_ext, loadLine_act.
Qed.

Lemma run_actions (cs : list command) (s : State) :
  run cs s = for_each act (cs ≫= actions_of) s.
Proof.
  revert s. induction cs as [|c cs IH]; intros s; [done|].
  change (c :: cs) with ([c] ++ cs). rewrite bind_app, for_each_app.
  unfold run in *; simpl. rewrite app_nil_r.
  assert (step c s = for_each act (actions_of c) s) as ->.
  { destruct c; simpl; try by destruct (act _ s).
    - by destruct (add o s).
    - by destruct (markCompleted title s).
    - by destruct (deleteTask title s).
    - apply loadFromFile_actions. }
  destruct (for_each act (actions_of c) s); simpl; auto.
Qed.

(** ** The free store *)

Lemma fresh_heap (s : State) : heap s !! fresh (dom (heap s)) = None.
Proof. apply not_elem_of_dom, is_fresh. Qed.

Lemma add_eq (o : TaskBase.t) (s : State) :
  add o s =
  Ok {| heap := <[fresh (dom (heap s)) := o]> (heap s);
        tasks := tasks s ++ [fresh (dom (heap s))];
        completedTasks := completedTasks s;
        titleMap := <[TaskBase.getTitle o := fresh (dom (heap s))]> (titleMap s);
        categories :=
          if Nat.eqb (String.length (TaskBase.getCategory o)) 0
          then categories s
          else {[TaskBase.getCategory o]} ∪ categories s |}.
Proof. unfold add, new, addTask; simpl. by rewrite lookup_insert_eq. Qed.

Lemma add_done_eq (o : TaskBase.t) (s : State) :
  add_done o s =
  Ok {| heap := <[fresh (dom (heap s)) := o]> (heap s);
        tasks := tasks s;
        completedTasks := completedTasks s ++ [fresh (dom (heap s))];
        titleMap := titleMap s;
        categories := categories s |}.
Proof. reflexivity. Qed.

Lemma wf_empty : wf empty_state.
Proof.
  split; simpl.
  - by intros p ?%elem_of_nil.
  - by intros p ?%elem_of_nil.
  - intros title p. by rewrite lookup_empty.
Qed.

Lemma wf_act (a : action) (s : State) :
  wf s → ∃ s', act a s = Ok s' ∧ wf s'.
Proof.
  intros [Ht Hc Hm]. pose proof (fresh_heap s) as Hfresh.
  destruct a as [o|o|title|title]; simpl.
  - rewrite add_eq. eexists; split; [done|]. split; simpl.
    + intros p [Hp| ->%list_elem_of_singleton]%elem_of_app;
        apply lookup_insert_is_Some'; auto.
    + intros p Hp. apply lookup_insert_is_Some'; auto.
    + intros title p [[<- <-]|[Hne Hp]]%lookup_insert_Some.
      * split; [exists o; by rewrite lookup_insert_eq|].
        intros [t Hl]%Hc. congruence.
      * destruct (Hm _ _ Hp) as [(t & Hl & Hti) Hnc]. split; [|done].
        exists t. split; [|done]. rewrite lookup_insert_ne; [done|congruence].
  - rewrite add_done_eq. eexists; split; [done|]. split; simpl.
    + intros p Hp. apply lookup_insert_is_Some'; auto.
    + intros p [Hp| ->%list_elem_of_singleton]%elem_of_app;
        apply lookup_insert_is_Some'; auto.
    + intros title p Hp. destruct (Hm _ _ Hp) as [(t & Hl & Hti) Hnc].
      split.
      * exists t. split; [|done]. rewrite lookup_insert_ne; [done|congruence].
      * intros [?| ->%list_elem_of_singleton]%elem_of_app; [done|congruence].
  - unfold markCompleted.
    destruct (titleMap s !! title) as [p|] eqn:Hp; [|by eauto using mkWf].
    destruct (Hm _ _ Hp) as [(t & Hl & Hti) Hnc]. rewrite Hl; simpl.
    eexists; split; [done|]. split; simpl.
    + intros p' [_ Hp']%list_elem_of_filter.
      apply lookup_insert_is_Some'; auto.
    + intros p' [Hp'| ->%list_elem_of_singleton]%elem_of_app;
        apply lookup_insert_is_Some'; auto.
    + intros title' p' [Hne Hp']%lookup_delete_Some.
      destruct (Hm _ _ Hp') as [(t' & Hl' & Hti') Hnc'].
      assert (p' ≠ p) by (intros ->; congruence).
      split.
      * exists t'. by rewrite lookup_insert_ne.
      * intros [?| ->%list_elem_of_singleton]%elem_of_app; done.
  - unfold deleteTask.
    destruct (titleMap s !! title) as [p|] eqn:Hp; [|by eauto using mkWf].
    destruct (Hm _ _ Hp) as [(t & Hl & Hti) Hnc]. rewrite Hl; simpl.
    eexists; split; [done|]. split; simpl.
    + intros p' [Hne Hp']%list_elem_of_filter.
      rewrite lookup_delete_ne by done. auto.
    + intros p' Hp'. rewrite lookup_delete_ne by (intros ->; done). auto.
    + intros title' p' [Hne Hp']%lookup_delete_Some.
      destruct (Hm _ _ Hp') as [(t' & Hl' & Hti') Hnc'].
      assert (p' ≠ p) by (intros ->; congruence).
      split; [|done]. exists t'. by rewrite lookup_delete_ne.
Qed.

Lemma wf_actions (acts : list action) (s : State) :
  wf s → ∃ s', for_each act acts s = Ok s' ∧ wf s'.
Proof.
  revert s. induction acts as [|a acts IH]; intros s Hwf; simpl; [eauto|].
  destruct (wf_act a s Hwf) as (s1 & -> & Hwf1). simpl. auto.
Qed.

(** Every run from a well-formed store ends, with a well-formed store. *)
Lemma wf_run (cs : list command) (s : State) :
  wf s → ∃ s', run cs s = Ok s' ∧ wf s'.
Proof. rewrite run_actions. apply wf_actions. Qed.

Lemma loadFromFile_total (filename : string) (fs : FileSystem) (s : State) :
  wf s → ∃ s', loadFromFile filename fs s = Ok s' ∧ wf s'.
Proof. rewrite loadFromFile_actions. apply wf_actions. Qed.

(** ** Listings *)

Lemma objects_wf (s : State) (v : list ptr) :
  (∀ p, p ∈ v → is_Some (heap s !! p)) → ∃ ts, objects s v = Some ts.
Proof.
  intros Hv. apply (mapM_is_Some_2 (λ p, heap s !! p)).
  apply Forall_forall. auto.
Qed.

Lemma objects_elem (s : State) (v : list ptr) (ts : list TaskBase.t)
  (p : ptr) (o : TaskBase.t) :
  objects s v = Some ts → p ∈ v → heap s !! p = Some o → o ∈ ts.
Proof.
  intros Hobj%mapM_Some_1 Hp Ho.
  induction Hobj as [|q t v ts Hq Hobj IH]; [by apply elem_of_nil in Hp|].
  apply elem_of_cons in Hp as [->|Hp].
  - rewrite Ho in Hq. injection Hq as ->. apply list_elem_of_here.
  - apply list_elem_of_further. auto.
Qed.

Lemma display_all_objects (s : State) (v : list ptr) (ts : list TaskBase.t) :
  objects s v = Some ts → display_all s v = Ok (TaskBase.display <$> ts).
Proof.
  intros Hobj%mapM_Some_1. unfold display_all.
  enough (∀ out,
    for_each (λ p out, t ← deref (heap s !! p);
                       Ok (out ++ [TaskBase.display t])) v out
    = Ok (out ++ (TaskBase.display <$> ts))) as H by apply (H []).
  induction Hobj as [|q t v ts Hq Hobj IH]; intros out; simpl.
  - by rewrite app_nil_r.
  - rewrite Hq; simpl. rewrite IH. by rewrite <-app_assoc.
Qed.

Lemma prefix_occurs (q s : string) :
  String.prefix q s = true ↔ ∃ post, s = q +:+ post.
Proof.
  revert s. induction q as [|c q IH]; intros s; simpl.
  - split; [intros _; exists s; reflexivity|by destruct s].
  - destruct s as [|c' s]; simpl.
    + split; [done|]. by intros [post ?].
    + destruct (ascii_dec c c') as [->|Hne].
      * rewrite IH. split; intros [post Hp]; exists post.
        -- by rewrite append_cons, Hp.
        -- rewrite append_cons in Hp. congruence.
      * split; [done|]. intros [post Hp]. rewrite append_cons in Hp.
        congruence.
Qed.

Lemma find_unfold (s q : string) :
  find s q = if String.prefix q s then Some O
             else match s with
                  | EmptyString => None
                  | String _ r => S <$> find r q
                  end.
Proof. by destruct s. Qed.

Lemma find_occurs (s q : string) : is_Some (find s q) ↔ occurs q s.
Proof.
  split.
  - induction s as [|c s IH]; rewrite find_unfold;
      destruct (String.prefix q _) eqn:Hp;
      try (intros _; apply prefix_occurs in Hp as [post Hp];
           by exists EmptyString, post).
    + by intros [? ?].
    + intros Hf. rewrite fmap_is_Some in Hf.
      destruct (IH Hf) as (pre & post & ->).
      by exists (String c pre), post.
  - intros (pre & post & ->).
    induction pre as [|c pre IH]; rewrite find_unfold.
    + rewrite append_nil_l.
      assert (String.prefix q (q +:+ post) = true) as ->
        by (apply prefix_occurs; eauto).
      done.
    + rewrite append_cons.
      destruct (String.prefix q _); [done|]. by rewrite fmap_is_Some.
Qed.

#[global] Instance occurs_dec (q s : string) : Decision (occurs q s).
Proof.
  refine (cast_if (decide (is_Some (find s q)))); by rewrite <-find_occurs.
Defined.

Lemma searchTask_objects (query : string) (s : State) (ts : list TaskBase.t) :
  objects s (tasks s) = Some ts →
  searchTask query s
  = Ok (TaskBase.display
          <$> filter (λ t, occurs query (TaskBase.getTitle t)) ts).
Proof.
  intros Hobj%mapM_Some_1. unfold searchTask.
  enough (∀ out,
    for_each (λ p out,
                t ← deref (heap s !! p);
                Ok (match find (TaskBase.getTitle t) query with
                    | Some _ => out ++ [TaskBase.display t]
                    | None => out
                    end)) (tasks s) out
    = Ok (out ++ (TaskBase.display
           <$> filter (λ t, occurs query (TaskBase.getTitle t)) ts)))
    as H by apply (H []).
  induction Hobj as [|q t v ts Hq Hobj IH]; intros out; simpl.
  - by rewrite app_nil_r.
  - rewrite Hq; simpl. rewrite IH, filter_cons.
    destruct (decide (occurs query (TaskBase.getTitle t))) as [Ho|Ho].
    + apply find_occurs in Ho as [n ->]. by rewrite <-app_assoc.
    + destruct (find (TaskBase.getTitle t) query) eqn:Hf; [|done].
      exfalso. apply Ho, find_occurs. by rewrite Hf.
Qed.

Lemma occurs_empty (s : string) : occurs EmptyString s.
Proof. by exists EmptyString, s. Qed.

Example occurs_computes :
  bool_decide (occurs "milk" "Buy milk") = true
  ∧ bool_decide (occurs "Milk" "Buy milk") = false.
Proof. split; reflexivity. Qed.

(** ** The sample store *)

Lemma sample_state_run : run sample_commands empty_state = Ok sample_state.
Proof. vm_compute. reflexivity. Qed.

Lemma sample_state_wf : wf sample_state.
Proof.
  destruct (wf_run sample_commands empty_state wf_empty) as (s & Hs & Hwf).
  rewrite sample_state_run in Hs. by injection Hs as <-.
Qed.

(** ** Searching *)

Lemma filter_all {A : Type} (P : A → Prop) `{∀ x, Decision (P x)}
  (l : list A) : (∀ x, P x) → filter P l = l.
Proof.
  intros HP. induction l as [|x l IH]; [done|].
  rewrite filter_cons_True by done. by rewrite IH.
Qed.

(** C9.  On a well-formed store [searchTask] writes the display lines of
    exactly the active tasks whose title contains the query as a run of
    consecutive bytes, in the order of the active list; the empty query
    selects every active task; and after adding "Buy milk" to an empty
    store, "milk" selects it and "Milk" selects nothing. *)
Theorem search_selects (query : string) (s : State) :
  wf s →
  ∃ ts, objects s (tasks s) = Some ts
    ∧ searchTask query s
      = Ok (TaskBase.display
              <$> filter (λ t, occurs query (TaskBase.getTitle t)) ts)
    ∧ searchTask EmptyString s = Ok (TaskBase.display <$> ts)
    ∧ ∃ s1, run [Add (Task "Buy milk" "01.01.2025" false)] empty_state = Ok s1
        ∧ searchTask "milk" s1
          = Ok [TaskBase.display (Task "Buy milk" "01.01.2025" false)]
        ∧ searchTask "Milk" s1 = Ok [].
Proof.
  intros Hwf. destruct (objects_wf s (tasks s) (wf_tasks s Hwf)) as [ts Hts].
  exists ts. split; [done|]. split; [by apply searchTask_objects|]. split.
  - rewrite (searchTask_objects _ _ _ Hts).
    by rewrite (filter_all _ _ (λ t, occurs_empty (TaskBase.getTitle t))).
  - eexists. split; [vm_compute; reflexivity|]. split; reflexivity.
Qed.

Lemma search_selects_witness :
  ∃ ts, objects sample_state (tasks sample_state) = Some ts
    ∧ searchTask "port" sample_state
      = Ok (TaskBase.display
              <$> filter (λ t, occurs "port" (TaskBase.getTitle t)) ts)
    ∧ searchTask EmptyString sample_state = Ok (TaskBase.display <$> ts)
    ∧ ∃ s1, run [Add (Task "Buy milk" "01.01.2025" false)] empty_state = Ok s1
        ∧ searchTask "milk" s1
          = Ok [TaskBase.display (Task "Buy milk" "01.01.2025" false)]
        ∧ searchTask "Milk" s1 = Ok [].
Proof. apply (search_selects "port" sample_state sample_state_wf). Defined.

(** ** Saving to a path that cannot be opened *)

(** C4, as amended.  When the path cannot be opened for writing,
    [saveToFile] returns normally, with every file as it was: nothing is
    written and no error reaches the caller. *)
Theorem saveToFile_unwritable (filename : string) (s : State)
  (fs : FileSystem) :
  wf s → filename ∈ unwritable fs → saveToFile filename s fs = Ok fs.
Proof.
  intros [Ht Hc _] Hro. unfold saveToFile, ofstream.
  rewrite decide_True by done.
  set (ofs := {| opath := filename; ofailbit := true |}).
  assert (Hput : ∀ text fs', put ofs text fs' = fs') by done.
  assert (Hloop : ∀ (f : ptr → FileSystem → outcome FileSystem) v,
            (∀ p, p ∈ v → f p fs = Ok fs) → for_each f v fs = Ok fs).
  { intros f v. induction v as [|p v IH]; intros Hv; simpl; [done|].
    rewrite Hv by apply list_elem_of_here. simpl.
    apply IH. intros q Hq. apply Hv. by apply list_elem_of_further. }
  rewrite Hloop; simpl.
  - apply Hloop. intros p [t Hp]%Hc. rewrite Hp. simpl. by rewrite !Hput.
  - intros p [t Hp]%Ht. rewrite Hp. simpl. by rewrite !Hput.
Qed.

Lemma saveToFile_unwritable_witness :
  saveToFile "/nonexistent/tasks.txt" sample_state sample_fs = Ok sample_fs.
Proof.
  apply (saveToFile_unwritable _ _ _ sample_state_wf).
  vm_compute. reflexivity.
Defined.

(** C4 as stated fails: the store holds tasks, the path cannot be opened,
    and the call ends as any other, with the file system untouched. *)
Lemma saveToFile_error_not_reported :
  tasks sample_state ≠ []
  ∧ "/nonexistent/tasks.txt" ∈ unwritable sample_fs
  ∧ saveToFile "/nonexistent/tasks.txt" sample_state sample_fs = Ok sample_fs
  ∧ ∀ e, saveToFile "/nonexistent/tasks.txt" sample_state sample_fs
         ≠ Throws e.
Proof.
  assert (saveToFile "/nonexistent/tasks.txt" sample_state sample_fs
          = Ok sample_fs) as Hsave by (vm_compute; reflexivity).
  split; [done|]. split; [vm_compute; reflexivity|].
  split; [done|]. intros e. by rewrite Hsave.
Qed.

(** ** Loading a completed line *)

(** C8.  A file whose only line is [DONE:Report;10.10.2024;1;Work], with or
    without a line end after it, loads into an empty store as one completed
    task "Report" and nothing else: no active task, no entry in [titleMap],
    no category.  In general a line that starts with [DONE:] only creates an
    object and appends it to [completedTasks]. *)
Theorem load_done_line (filename : string) (fs : FileSystem) (text : string) :
  files fs !! filename = Some text →
  text = "DONE:Report;10.10.2024;1;Work"
  ∨ text = "DONE:Report;10.10.2024;1;Work" +:+ endl →
  loadFromFile filename fs empty_state
  = Ok {| heap :=
            {[ 1%positive := CategorizedTask "Report" "10.10.2024" "Work" true ]};
          tasks := [];
          completedTasks := [1%positive];
          titleMap := ∅;
          categories := ∅ |}
  ∧ ∀ line s, String.prefix "DONE:" line = true →
      ∃ o, loadLine line s
           = Ok {| heap := <[fresh (dom (heap s)) := o]> (heap s);
                   tasks := tasks s;
                   completedTasks := completedTasks s ++ [fresh (dom (heap s))];
                   titleMap := titleMap s;
                   categories := categories s |}.
Proof.
  intros Hfile Htext. split.
  - unfold loadFromFile, ifstream. rewrite Hfile.
    destruct Htext as [->| ->]; vm_compute; reflexivity.
  - intros line s Hline. rewrite loadLine_act.
    unfold action_of_line, parse_line, rfind0. rewrite Hline.
    eexists. simpl. by rewrite add_done_eq.
Qed.

Lemma load_done_line_witness :
  loadFromFile "tasks.txt" sample_fs empty_state
  = Ok {| heap :=
            {[ 1%positive := CategorizedTask "Report" "10.10.2024" "Work" true ]};
          tasks := [];
          completedTasks := [1%positive];
          titleMap := ∅;
          categories := ∅ |}
  ∧ ∀ line s, String.prefix "DONE:" line = true →
      ∃ o, loadLine line s
           = Ok {| heap := <[fresh (dom (heap s)) := o]> (heap s);
                   tasks := tasks s;
                   completedTasks := completedTasks s ++ [fresh (dom (heap s))];
                   titleMap := titleMap s;
                   categories := categories s |}.
Proof.
  apply (load_done_line "tasks.txt" sample_fs "DONE:Report;10.10.2024;1;Work").
  - reflexivity.
  - left. reflexivity.
Defined.

(** ** Invariants of runs *)

(** A property kept by every action of a given kind is kept by every run
    made of such actions. *)
Lemma actions_invariant (Q : action → Prop) (P : State → Prop) :
  (∀ a s s', Q a → wf s → P s → act a s = Ok s' → P s') →
  ∀ acts s, Forall Q acts → wf s → P s →
    ∃ s', for_each act acts s = Ok s' ∧ wf s' ∧ P s'.
Proof.
  intros Hstep acts. induction acts as [|a acts IH]; intros s HQ Hwf HP.
  - exists s. by simpl.
  - apply Forall_cons in HQ as [Ha HQ].
    destruct (wf_act a s Hwf) as (s1 & Hs1 & Hwf1). simpl. rewrite Hs1. simpl.
    apply IH; eauto.
Qed.

Lemma run_invariant (P : State → Prop) :
  (∀ a s s', wf s → P s → act a s = Ok s' → P s') →
  ∀ cs s, wf s → P s → ∃ s', run cs s = Ok s' ∧ wf s' ∧ P s'.
Proof.
  intros Hstep cs s Hwf HP. rewrite run_actions.
  apply (actions_invariant (λ _, True) P); auto.
  - intros a s1 s2 _. apply Hstep.
  - by apply Forall_forall.
Qed.

(** *** Categories *)

Lemma act_categories (a : action) (s s' : State) :
  act a s = Ok s' → categories s ⊆ categories s'.
Proof.
  destruct a as [o|o|title|title]; simpl.
  - rewrite add_eq. intros [= <-]. simpl.
    case_match; [done|apply union_subseteq_r].
  - rewrite add_done_eq. by intros [= <-].
  - unfold markCompleted. destruct (titleMap s !! title); [|by intros [= <-]].
    destruct (heap s !! p); simpl; [|done]. by intros [= <-].
  - unfold deleteTask. destruct (titleMap s !! title); [|by intros [= <-]].
    destruct (heap s !! p); simpl; [|done]. by intros [= <-].
Qed.

(** C7.  From a well-formed store every run ends, and the set of categories
    at its end contains the set at its start; so a non-empty category put
    there by [addTask] is still there after any commands whatever, deletes
    and completions of its tasks included. *)
Theorem categories_never_shrink (cs : list command) (s : State) :
  wf s →
  (∃ s', run cs s = Ok s' ∧ categories s ⊆ categories s')
  ∧ ∀ o, TaskBase.getCategory o ≠ EmptyString →
      ∃ s1 s2, add o s = Ok s1 ∧ TaskBase.getCategory o ∈ categories s1
               ∧ run cs s1 = Ok s2 ∧ TaskBase.getCategory o ∈ categories s2.
Proof.
  intros Hwf.
  assert (Hmono : ∀ s0, wf s0 →
            ∃ s', run cs s0 = Ok s' ∧ categories s0 ⊆ categories s').
  { intros s0 Hwf0.
    destruct (run_invariant (λ s', categories s0 ⊆ categories s')) with cs s0
      as (s' & Hrun & _ & Hsub); eauto.
    intros a s1 s2 _ Hsub Hact. apply act_categories in Hact.
    by etrans. }
  split; [by apply Hmono|].
  intros o Hcat.
  destruct (wf_act (AAdd o) s Hwf) as (s1 & Hadd & Hwf1). simpl in Hadd.
  destruct (Hmono s1 Hwf1) as (s2 & Hrun & Hsub).
  exists s1, s2. split; [done|].
  assert (TaskBase.getCategory o ∈ categories s1) as Hin.
  { rewrite add_eq in Hadd. injection Hadd as <-. simpl.
    destruct (TaskBase.getCategory o); [done|]. simpl.
    apply elem_of_union_l. by apply elem_of_singleton. }
  split; [done|]. split; [done|]. by apply Hsub.
Qed.

Lemma categories_never_shrink_witness :
  (∃ s', run [Delete "Report"; Delete "Buy milk"; Complete "Report"]
           sample_state = Ok s'
         ∧ categories sample_state ⊆ categories s')
  ∧ ∀ o, TaskBase.getCategory o ≠ EmptyString →
      ∃ s1 s2, add o sample_state = Ok s1
               ∧ TaskBase.getCategory o ∈ categories s1
               ∧ run [Delete "Report"; Delete "Buy milk"; Complete "Report"] s1
                 = Ok s2
               ∧ TaskBase.getCategory o ∈ categories s2.
Proof.
  apply (categories_never_shrink
           [Delete "Report"; Delete "Buy milk"; Complete "Report"]
           sample_state sample_state_wf).
Defined.

(** *** Completed tasks stay completed *)

Lemma erase_remove_absent (p : ptr) (v : list ptr) :
  p ∉ v → erase_remove p v = v.
Proof.
  intros Hp. unfold erase_remove. induction v as [|q v IH]; [done|].
  apply not_elem_of_cons in Hp as [Hne Hp].
  rewrite filter_cons_True by done. by rewrite IH.
Qed.

Lemma erase_remove_elem (p q : ptr) (v : list ptr) :
  q ∈ erase_remove p v ↔ q ≠ p ∧ q ∈ v.
Proof. unfold erase_remove. by rewrite list_elem_of_filter. Qed.

Lemma markCompleted_absent (title : string) (s : State) :
  titleMap s !! title = None → markCompleted title s = Ok s.
Proof. unfold markCompleted. by intros ->. Qed.

Lemma deleteTask_absent (title : string) (s : State) :
  titleMap s !! title = None → deleteTask title s = Ok s.
Proof. unfold deleteTask. by intros ->. Qed.

Lemma markCompleted_present (title : string) (p : ptr) (t : TaskBase.t)
  (s : State) :
  titleMap s !! title = Some p → heap s !! p = Some t →
  markCompleted title s =
  Ok {| heap := <[p := TaskBase.markCompleted t]> (heap s);
        tasks := erase_remove p (tasks s);
        completedTasks := completedTasks s ++ [p];
        titleMap := delete title (titleMap s);
        categories := categories s |}.
Proof. unfold markCompleted. by intros -> ->. Qed.

Lemma deleteTask_present (title : string) (p : ptr) (t : TaskBase.t)
  (s : State) :
  titleMap s !! title = Some p → heap s !! p = Some t →
  deleteTask title s =
  Ok {| heap := delete p (heap s);
        tasks := erase_remove p (tasks s);
        completedTasks := completedTasks s;
        titleMap := delete title (titleMap s);
        categories := categories s |}.
Proof. unfold deleteTask. by intros -> ->. Qed.

(** What an action does, case by case, on a well-formed store. *)
Lemma act_cases (a : action) (s s' : State) :
  wf s → act a s = Ok s' →
  (∃ o, (a = AAdd o ∨ a = AAddDone o)
        ∧ heap s !! fresh (dom (heap s)) = None
        ∧ heap s' = (<[fresh (dom (heap s)) := o]> (heap s))
        ∧ (a = AAdd o →
           tasks s' = tasks s ++ [fresh (dom (heap s))]
           ∧ completedTasks s' = completedTasks s
           ∧ titleMap s'
             = (<[TaskBase.getTitle o := fresh (dom (heap s))]> (titleMap s)))
        ∧ (a = AAddDone o →
           tasks s' = tasks s
           ∧ completedTasks s' = completedTasks s ++ [fresh (dom (heap s))]
           ∧ titleMap s' = titleMap s))
  ∨ (∃ title, (a = AComplete title ∨ a = ADelete title)
        ∧ titleMap s !! title = None ∧ s' = s)
  ∨ (∃ title p t, (a = AComplete title ∨ a = ADelete title)
        ∧ titleMap s !! title = Some p ∧ heap s !! p = Some t
        ∧ (p ∉ completedTasks s)
        ∧ tasks s' = erase_remove p (tasks s)
        ∧ titleMap s' = delete title (titleMap s)
        ∧ (a = AComplete title →
           heap s' = (<[p := TaskBase.markCompleted t]> (heap s))
           ∧ completedTasks s' = completedTasks s ++ [p])
        ∧ (a = ADelete title →
           heap s' = delete p (heap s)
           ∧ completedTasks s' = completedTasks s)).
Proof.
  intros Hwf Hact. destruct a as [o|o|title|title]; simpl in Hact.
  - left. exists o. rewrite add_eq in Hact. injection Hact as <-. simpl.
    split_and!; auto using fresh_heap; done.
  - left. exists o. rewrite add_done_eq in Hact. injection Hact as <-. simpl.
    split_and!; auto using fresh_heap; done.
  - right. destruct (titleMap s !! title) as [p|] eqn:Hp.
    + right. destruct (wf_titleMap s Hwf _ _ Hp) as [(t & Ht & _) Hnc].
      rewrite (markCompleted_present _ _ _ _ Hp Ht) in Hact.
      injection Hact as <-. exists title, p, t. simpl.
      split_and!; auto; done.
    + left. rewrite markCompleted_absent in Hact by done.
      injection Hact as <-. exists title. auto.
  - right. destruct (titleMap s !! title) as [p|] eqn:Hp.
    + right. destruct (wf_titleMap s Hwf _ _ Hp) as [(t & Ht & _) Hnc].
      rewrite (deleteTask_present _ _ _ _ Hp Ht) in Hact.
      injection Hact as <-. exists title, p, t. simpl.
      split_and!; auto; done.
    + left. rewrite deleteTask_absent in Hact by done.
      injection Hact as <-. exists title. auto.
Qed.

Lemma act_unindexed (p : ptr) (t : TaskBase.t) (a : action) (s s' : State) :
  wf s → unindexed p t s → act a s = Ok s' →
  unindexed p t s'
  ∧ (p ∈ tasks s ↔ p ∈ tasks s')
  ∧ (p ∈ completedTasks s ↔ p ∈ completedTasks s').
Proof.
  intros Hwf [Hp Hmap] Hact. unfold unindexed.
  destruct (act_cases a s s' Hwf Hact)
    as [(o & Ha & Hfresh & Hheap & Hadd & Hdone)
       |[(title & Ha & Hnone & ->)
        |(title & q & tq & Ha & Hq & Htq & Hnc & Htasks & Hmap' & Hc & Hd)]].
  - assert (fresh (dom (heap s)) ≠ p) as Hne by congruence.
    assert (heap s' !! p = Some t) as Hp'
      by (by rewrite Hheap, lookup_insert_ne).
    destruct Ha as [->| ->].
    + destruct (Hadd eq_refl) as (Ht & Hc & Hm). rewrite Ht, Hc.
      split; [split; [done|]|split; [|done]].
      * intros title. rewrite Hm. intros [[_ ?]|[_ ?]]%lookup_insert_Some.
        -- done.
        -- by eapply Hmap.
      * rewrite elem_of_app, list_elem_of_singleton.
        split; [auto|]. by intros [?|?].
    + destruct (Hdone eq_refl) as (Ht & Hc & Hm). rewrite Ht, Hc, Hm.
      split; [done|]. split; [done|].
      rewrite elem_of_app, list_elem_of_singleton.
      split; [auto|]. by intros [?|?].
  - done.
  - assert (q ≠ p) as Hne by (intros ->; by eapply Hmap).
    assert (∀ title', titleMap s' !! title' ≠ Some p) as Hmap2.
    { intros title'. rewrite Hmap'. intros [_ ?]%lookup_delete_Some.
      by eapply Hmap. }
    rewrite Htasks, erase_remove_elem.
    assert (p ∈ tasks s ↔ p ≠ q ∧ p ∈ tasks s) as Hiff
      by (split; [by split|by intros [_ ?]]).
    destruct Ha as [->| ->].
    + destruct (Hc eq_refl) as (Hh & Hc'). rewrite Hh, Hc'.
      rewrite lookup_insert_ne by done.
      split; [done|]. split; [done|].
      rewrite elem_of_app, list_elem_of_singleton.
      split; [auto|]. by intros [?|?].
    + destruct (Hd eq_refl) as (Hh & Hc'). rewrite Hh, Hc'.
      by rewrite lookup_delete_ne by done.
Qed.

Lemma run_unindexed (p : ptr) (t : TaskBase.t) (cs : list command)
  (s : State) :
  wf s → unindexed p t s →
  ∃ s', run cs s = Ok s' ∧ wf s' ∧ unindexed p t s'
        ∧ (p ∈ tasks s ↔ p ∈ tasks s')
        ∧ (p ∈ completedTasks s ↔ p ∈ completedTasks s').
Proof.
  intros Hwf Hun.
  apply (run_invariant
    (λ s', unindexed p t s' ∧ (p ∈ tasks s ↔ p ∈ tasks s')
           ∧ (p ∈ completedTasks s ↔ p ∈ completedTasks s'))); [|done..].
  intros a s1 s2 Hwf1 (Hun1 & Ht1 & Hc1) Hact.
  destruct (act_unindexed p t a s1 s2 Hwf1 Hun1 Hact) as (? & ? & ?).
  split; [done|]. split; etrans; eauto.
Qed.

(** *** A title that is not added stays absent *)

Lemma act_title_absent (title : string) (a : action) (s s' : State) :
  (∀ o, a = AAdd o → TaskBase.getTitle o ≠ title) →
  wf s → titleMap s !! title = None → act a s = Ok s' →
  titleMap s' !! title = None.
Proof.
  intros Ha Hwf Hnone Hact.
  destruct (act_cases a s s' Hwf Hact)
    as [(o & Ho & Hfresh & Hheap & Hadd & Hdone)
       |[(title' & _ & _ & ->)
        |(title' & q & tq & _ & _ & _ & _ & _ & -> & _)]].
  - destruct Ho as [->| ->].
    + destruct (Hadd eq_refl) as (_ & _ & ->).
      rewrite lookup_insert_ne; [done|]. by apply Ha.
    + by destruct (Hdone eq_refl) as (_ & _ & ->).
  - done.
  - apply lookup_delete_None. auto.
Qed.

Lemma run_title_absent (title : string) (cs : list command) (s : State) :
  Forall (λ c, ¬ adds_title title c) cs →
  wf s → titleMap s !! title = None →
  ∃ s', run cs s = Ok s' ∧ wf s' ∧ titleMap s' !! title = None.
Proof.
  intros Hcs Hwf Hnone. rewrite run_actions.
  apply (actions_invariant
           (λ a, ∀ o, a = AAdd o → TaskBase.getTitle o ≠ title)
           (λ s', titleMap s' !! title = None)); [| |done..].
  - intros a s1 s2 Ha Hwf1 Hn1 Hact. by eapply act_title_absent.
  - apply Forall_forall. intros a [c [Ha Hc]]%list_elem_of_bind o -> Hti.
    rewrite Forall_forall in Hcs. apply (Hcs c Hc). by exists o.
Qed.

(** ** Completion is terminal *)

(** C6.  On a well-formed store, when [title] is in [titleMap],
    [markCompleted title] succeeds and removes the entry; a second
    [markCompleted title] and a [deleteTask title] then return the very same
    state.  After any further commands the completed object is still in
    [completedTasks], still not in [tasks], and still as [markCompleted]
    left it; and as long as none of those commands adds a task with that
    title again, [markCompleted title] and [deleteTask title] remain
    without effect. *)
Theorem completion_terminal (title : string) (p : ptr) (s : State) :
  wf s → titleMap s !! title = Some p →
  ∃ t s1, heap s !! p = Some t
    ∧ markCompleted title s = Ok s1
    ∧ titleMap s1 !! title = None
    ∧ markCompleted title s1 = Ok s1
    ∧ deleteTask title s1 = Ok s1
    ∧ ∀ cs, ∃ s2, run cs s1 = Ok s2
        ∧ p ∈ completedTasks s2
        ∧ (p ∉ tasks s2)
        ∧ heap s2 !! p = Some (TaskBase.markCompleted t)
        ∧ (Forall (λ c, ¬ adds_title title c) cs →
           titleMap s2 !! title = None
           ∧ markCompleted title s2 = Ok s2
           ∧ deleteTask title s2 = Ok s2).
Proof.
  intros Hwf Hp.
  destruct (wf_titleMap s Hwf _ _ Hp) as [(t & Ht & Hti) Hnc].
  destruct (wf_act (AComplete title) s Hwf) as (s1 & Hs1 & Hwf1).
  simpl in Hs1. exists t, s1. split; [done|]. split; [done|].
  rewrite (markCompleted_present _ _ _ _ Hp Ht) in Hs1.
  assert (titleMap s1 !! title = None) as Hnone
    by (injection Hs1 as <-; apply lookup_delete_eq).
  split; [done|].
  split; [by apply markCompleted_absent|].
  split; [by apply deleteTask_absent|].
  intros cs.
  assert (p ∈ completedTasks s1) as Hin
    by (injection Hs1 as <-; simpl; apply elem_of_app; right;
        apply list_elem_of_here).
  assert (p ∉ tasks s1) as Hout.
  { injection Hs1 as <-. simpl. rewrite erase_remove_elem. by intros [? _]. }
  assert (unindexed p (TaskBase.markCompleted t) s1) as Hun.
  { split.
    - injection Hs1 as <-. simpl. apply lookup_insert_eq.
    - intros title' Hp'. by destruct (wf_titleMap s1 Hwf1 _ _ Hp') as [_ ?]. }
  destruct (run_unindexed p _ cs s1 Hwf1 Hun)
    as (s2 & Hrun & Hwf2 & [Hh2 _] & Ht2 & Hc2).
  exists s2. split; [done|]. split; [by apply Hc2|].
  split; [by rewrite <-Ht2|]. split; [done|].
  intros Hcs.
  destruct (run_title_absent title cs s1 Hcs Hwf1 Hnone)
    as (s2' & Hrun' & _ & Hnone2).
  rewrite Hrun in Hrun'. injection Hrun' as <-.
  split; [done|].
  split; [by apply markCompleted_absent|by apply deleteTask_absent].
Qed.

Lemma completion_terminal_witness :
  ∃ t s1, heap sample_state !! 3%positive = Some t
    ∧ markCompleted "Report" sample_state = Ok s1
    ∧ titleMap s1 !! "Report" = None
    ∧ markCompleted "Report" s1 = Ok s1
    ∧ deleteTask "Report" s1 = Ok s1
    ∧ ∀ cs, ∃ s2, run cs s1 = Ok s2
        ∧ 3%positive ∈ completedTasks s2
        ∧ (3%positive ∉ tasks s2)
        ∧ heap s2 !! 3%positive = Some (TaskBase.markCompleted t)
        ∧ (Forall (λ c, ¬ adds_title "Report" c) cs →
           titleMap s2 !! "Report" = None
           ∧ markCompleted "Report" s2 = Ok s2
           ∧ deleteTask "Report" s2 = Ok s2).
Proof.
  apply (completion_terminal "Report" 3%positive sample_state sample_state_wf).
  vm_compute. reflexivity.
Defined.

(** ** Two records under one title *)

(** C10.  Let [o1] and then [o2], of the same title, be added to a
    well-formed store, at addresses [p1] and [p2].  The entry of the title
    points to [p2].  [markCompleted] of the title moves [p2] alone to the
    completed list and [deleteTask] of the title destroys [p2] alone; in
    both cases the active list is the former one followed by [p1].  After
    any commands whatever [p1] is still active, unchanged, indexed under no
    title, hence out of reach of [markCompleted] and [deleteTask], and its
    line is in the plain listing and in every search for a part of its
    title. *)
Theorem shadowed_record (o1 o2 : TaskBase.t) (s : State) :
  wf s → TaskBase.getTitle o1 = TaskBase.getTitle o2 →
  ∃ p1 p2 s2, run [Add o1; Add o2] s = Ok s2
    ∧ p1 ≠ p2
    ∧ heap s2 !! p1 = Some o1 ∧ heap s2 !! p2 = Some o2
    ∧ tasks s2 = tasks s ++ [p1; p2]
    ∧ titleMap s2 !! TaskBase.getTitle o2 = Some p2
    ∧ (∃ s3, markCompleted (TaskBase.getTitle o2) s2 = Ok s3
         ∧ tasks s3 = tasks s ++ [p1]
         ∧ completedTasks s3 = completedTasks s2 ++ [p2]
         ∧ heap s3 !! p1 = Some o1)
    ∧ (∃ s3, deleteTask (TaskBase.getTitle o2) s2 = Ok s3
         ∧ tasks s3 = tasks s ++ [p1]
         ∧ completedTasks s3 = completedTasks s2
         ∧ heap s3 !! p1 = Some o1 ∧ heap s3 !! p2 = None)
    ∧ ∀ cs, ∃ s3 listing, run cs s2 = Ok s3
        ∧ p1 ∈ tasks s3
        ∧ (p1 ∉ completedTasks s3)
        ∧ heap s3 !! p1 = Some o1
        ∧ (∀ title, titleMap s3 !! title ≠ Some p1)
        ∧ viewTasks false s3 = Ok listing
        ∧ TaskBase.display o1 ∈ listing
        ∧ ∀ query, occurs query (TaskBase.getTitle o1) →
            ∃ found, searchTask query s3 = Ok found
                     ∧ TaskBase.display o1 ∈ found.
Proof.
  intros Hwf Htitle.
  destruct (wf_act (AAdd o1) s Hwf) as (s1 & Hs1 & Hwf1).
  destruct (wf_act (AAdd o2) s1 Hwf1) as (s2 & Hs2 & Hwf2).
  simpl in Hs1, Hs2.
  set (p1 := fresh (dom (heap s))). set (p2 := fresh (dom (heap s1))).
  pose proof (fresh_heap s) as Hf1. pose proof (fresh_heap s1) as Hf2.
  fold p1 in Hf1. fold p2 in Hf2.
  exists p1, p2, s2.
  assert (run [Add o1; Add o2] s = Ok s2) as Hrun
    by (unfold run; simpl; rewrite Hs1; simpl; by rewrite Hs2).
  rewrite add_eq in Hs1. injection Hs1 as Hs1. fold p1 in Hs1.
  rewrite add_eq in Hs2. injection Hs2 as Hs2. fold p2 in Hs2.
  assert (heap s1 = <[p1 := o1]> (heap s)) as Hh1 by (by rewrite <-Hs1).
  assert (p1 ≠ p2) as Hne.
  { intros Heq. rewrite <-Heq, Hh1, lookup_insert_eq in Hf2. done. }
  assert (heap s !! p2 = None) as Hf2'.
  { rewrite Hh1, lookup_insert_ne in Hf2; done. }
  assert (heap s2 = <[p2 := o2]> (<[p1 := o1]> (heap s))) as Hh2
    by (by rewrite <-Hs2, <-Hs1).
  assert (tasks s2 = tasks s ++ [p1; p2]) as Ht2
    by (rewrite <-Hs2, <-Hs1; simpl; by rewrite <-app_assoc).
  assert (completedTasks s2 = completedTasks s) as Hc2
    by (by rewrite <-Hs2, <-Hs1).
  assert (titleMap s2
          = <[TaskBase.getTitle o2 := p2]>
              (<[TaskBase.getTitle o2 := p1]> (titleMap s))) as Hm2
    by (rewrite <-Hs2, <-Hs1; simpl; by rewrite Htitle).
  assert (heap s2 !! p1 = Some o1) as Hp1
    by (by rewrite Hh2, lookup_insert_ne, lookup_insert_eq).
  assert (heap s2 !! p2 = Some o2) as Hp2
    by (by rewrite Hh2, lookup_insert_eq).
  assert (titleMap s2 !! TaskBase.getTitle o2 = Some p2) as Hlook
    by (by rewrite Hm2, lookup_insert_eq).
  assert ((p1 ∉ tasks s) ∧ (p2 ∉ tasks s)) as [Hn1 Hn2].
  { split; intros [t Ht]%(wf_tasks s Hwf); congruence. }
  assert (erase_remove p2 (tasks s2) = tasks s ++ [p1]) as Her.
  { rewrite Ht2. unfold erase_remove. rewrite filter_app.
    fold (erase_remove p2 (tasks s)). rewrite erase_remove_absent by done.
    f_equal. rewrite filter_cons_True by done.
    by rewrite filter_cons_False, filter_nil by (intros ?; done). }
  clear Hs1 Hs2.
  split; [done|]. split; [done|]. split; [done|]. split; [done|].
  split; [done|]. split; [done|]. split; [|split].
  - rewrite (markCompleted_present _ _ _ _ Hlook Hp2).
    eexists. split; [done|]. simpl. split; [done|]. split; [done|].
    by rewrite lookup_insert_ne.
  - rewrite (deleteTask_present _ _ _ _ Hlook Hp2).
    eexists. split; [done|]. simpl. split; [done|]. split; [done|].
    split; [by rewrite lookup_delete_ne|apply lookup_delete_eq].
  - intros cs.
    assert (unindexed p1 o1 s2) as Hun.
    { split; [done|]. intros title. rewrite Hm2.
      intros [[_ ?]|[? [[? _]|[_ Hold]]%lookup_insert_Some]]%lookup_insert_Some.
      - congruence.
      - congruence.
      - destruct (wf_titleMap s Hwf _ _ Hold) as [(t & Ht & _) _].
        congruence. }
    destruct (run_unindexed p1 o1 cs s2 Hwf2 Hun)
      as (s3 & Hrun3 & Hwf3 & [Hh3 Hm3] & Ht3 & Hc3).
    destruct (objects_wf s3 (tasks s3) (wf_tasks s3 Hwf3)) as [ts Hts].
    assert (p1 ∈ tasks s3) as Hin3.
    { apply Ht3. rewrite Ht2. apply elem_of_app. right. apply list_elem_of_here. }
    assert (o1 ∈ ts) as Ho1 by (by eapply objects_elem).
    exists s3, (TaskBase.display <$> ts).
    split; [done|]. split; [done|]. split.
    { rewrite <-Hc3, Hc2. intros [t Ht]%(wf_completed s Hwf). congruence. }
    split; [done|]. split; [done|].
    split; [by apply display_all_objects|].
    split; [by apply list_elem_of_fmap_2|].
    intros query Hq. eexists. split; [by apply searchTask_objects|].
    apply list_elem_of_fmap_2. by apply list_elem_of_filter.
Qed.

Lemma shadowed_record_witness :
  ∃ p1 p2 s2,
    run [Add (Task "Pay rent" "01.11.2024" false);
         Add (CategorizedTask "Pay rent" "01.12.2024" "Home" false)]
        sample_state = Ok s2
    ∧ p1 ≠ p2
    ∧ heap s2 !! p1 = Some (Task "Pay rent" "01.11.2024" false)
    ∧ heap s2 !! p2
      = Some (CategorizedTask "Pay rent" "01.12.2024" "Home" false)
    ∧ tasks s2 = tasks sample_state ++ [p1; p2]
    ∧ titleMap s2 !! "Pay rent" = Some p2
    ∧ (∃ s3, markCompleted "Pay rent" s2 = Ok s3
         ∧ tasks s3 = tasks sample_state ++ [p1]
         ∧ completedTasks s3 = completedTasks s2 ++ [p2]
         ∧ heap s3 !! p1 = Some (Task "Pay rent" "01.11.2024" false))
    ∧ (∃ s3, deleteTask "Pay rent" s2 = Ok s3
         ∧ tasks s3 = tasks sample_state ++ [p1]
         ∧ completedTasks s3 = completedTasks s2
         ∧ heap s3 !! p1 = Some (Task "Pay rent" "01.11.2024" false)
         ∧ heap s3 !! p2 = None)
    ∧ ∀ cs, ∃ s3 listing, run cs s2 = Ok s3
        ∧ p1 ∈ tasks s3
        ∧ (p1 ∉ completedTasks s3)
        ∧ heap s3 !! p1 = Some (Task "Pay rent" "01.11.2024" false)
        ∧ (∀ title, titleMap s3 !! title ≠ Some p1)
        ∧ viewTasks false s3 = Ok listing
        ∧ TaskBase.display (Task "Pay rent" "01.11.2024" false) ∈ listing
        ∧ ∀ query, occurs query "Pay rent" →
            ∃ found, searchTask query s3 = Ok found
                     ∧ TaskBase.display (Task "Pay rent" "01.11.2024" false)
                       ∈ found.
Proof.
  apply (shadowed_record (Task "Pay rent" "01.11.2024" false)
           (CategorizedTask "Pay rent" "01.12.2024" "Home" false)
           sample_state sample_state_wf).
  reflexivity.
Defined.

(** ** The title index after a sequence of additions *)

Lemma run_snoc (cs : list command) (c : command) (s : State) :
  run (cs ++ [c]) s = run cs s ≫= step c.
Proof.
  unfold run. rewrite for_each_app.
  destruct (for_each step cs s) as [s'| | |]; simpl; try done.
  by destruct (step c s').
Qed.

Lemma indexes_empty : indexes [] empty_state.
Proof.
  split; simpl.
  - constructor.
  - constructor.
  - by rewrite dom_empty_L.
  - intros title p. rewrite lookup_empty. split; [done|].
    by intros (i & o & Hi & _).
Qed.

Lemma indexes_add (os : list TaskBase.t) (o : TaskBase.t) (s s' : State) :
  indexes os s → add o s = Ok s' → indexes (os ++ [o]) s'.
Proof.
  intros [Hobj Hnd Hdom Hlast]. rewrite add_eq. intros [= <-].
  pose proof (fresh_heap s) as Hfresh.
  set (p := fresh (dom (heap s))) in *.
  pose proof (Forall2_length _ _ _ Hobj) as Hlen.
  assert (p ∉ tasks s) as Hnotin.
  { intros Hin. apply list_elem_of_lookup in Hin as [i Hi].
    destruct (Forall2_lookup_l _ _ _ _ _ Hobj Hi) as (o' & _ & Ho').
    congruence. }
  split; simpl.
  - apply Forall2_app.
    + eapply Forall2_impl; [done|]. intros q o' Hq.
      rewrite lookup_insert_ne; [done|congruence].
    + constructor; [apply lookup_insert_eq|constructor].
  - apply NoDup_app. split; [done|]. split; [|apply NoDup_singleton].
    intros q Hq ->%list_elem_of_singleton. done.
  - rewrite dom_insert_L, Hdom, fmap_app, list_to_set_app_L. simpl.
    rewrite union_empty_r_L. apply (comm_L (∪)).
  - intros title q. rewrite lookup_insert_Some. split.
    + intros [[<- <-]|[Hne Hq]].
      * exists (length os), o. rewrite <-Hlen at 1.
        rewrite !list_lookup_middle by done.
        split; [done|]. split; [done|]. split; [done|].
        intros j o' Hj Ho'. apply lookup_lt_Some in Ho'.
        rewrite length_app in Ho'. simpl in Ho'. lia.
      * apply Hlast in Hq as (i & oi & Hi & Hoi & Hti & Hlater).
        exists i, oi. split; [by apply lookup_app_l_Some|].
        split; [by apply lookup_app_l_Some|]. split; [done|].
        intros j o' Hj Ho'.
        destruct (decide (j < length os)%nat) as [Hlt|Hge].
        -- rewrite lookup_app_l in Ho' by done. eauto.
        -- apply lookup_lt_Some in Ho' as Hj'.
           rewrite length_app in Hj'. simpl in Hj'.
           assert (j = length os) as -> by lia.
           rewrite list_lookup_middle in Ho' by done. congruence.
    + intros (i & oi & Hi & Hoi & Hti & Hlater).
      apply lookup_lt_Some in Hoi as Hilt.
      rewrite length_app in Hilt. simpl in Hilt.
      destruct (decide (i = length os)) as [->|Hne].
      * left. rewrite list_lookup_middle in Hoi by done.
        rewrite <-Hlen, list_lookup_middle in Hi by done.
        split; congruence.
      * right. assert (i < length os)%nat as Hlt by lia.
        rewrite lookup_app_l in Hoi by done.
        rewrite lookup_app_l in Hi by lia.
        split.
        -- intros Heq. apply (Hlater (length os) o); [lia| |done].
           by apply list_lookup_middle.
        -- apply Hlast. exists i, oi. split; [done|]. split; [done|].
           split; [done|]. intros j o' Hj Ho'. apply (Hlater j o'); [done|].
           by apply lookup_app_l_Some.
Qed.

Lemma run_adds_indexes (os : list TaskBase.t) :
  ∃ s, run (Add <$> os) empty_state = Ok s ∧ wf s ∧ indexes os s.
Proof.
  induction os as [|o os (s & Hrun & Hwf & Hix)] using rev_ind.
  - exists empty_state. split; [done|]. split; [apply wf_empty|].
    apply indexes_empty.
  - destruct (wf_act (AAdd o) s Hwf) as (s' & Hadd & Hwf'). simpl in Hadd.
    exists s'. rewrite fmap_app. simpl. rewrite run_snoc, Hrun. simpl.
    split; [done|]. split; [done|]. by eapply indexes_add.
Qed.

(** C5.  After any sequence of additions to the empty store, the active list
    refers to the objects added, in order and without repetition;
    [titleMap] has an entry for exactly the titles of those objects, one per
    distinct title, and the entry of a title points to the object added last
    under it.  Adding one more object whose title is already indexed
    redirects the entry to the new object; the object indexed before stays
    in the active list, unchanged, and no entry points to it any more. *)
Theorem titleMap_after_adds (os : list TaskBase.t) :
  ∃ s, run (Add <$> os) empty_state = Ok s
    ∧ objects s (tasks s) = Some os
    ∧ NoDup (tasks s)
    ∧ dom (titleMap s) = list_to_set (TaskBase.getTitle <$> os)
    ∧ size (titleMap s) = length (remove_dups (TaskBase.getTitle <$> os))
    ∧ (∀ title p,
         titleMap s !! title = Some p ↔
         ∃ i o, tasks s !! i = Some p ∧ os !! i = Some o
                ∧ TaskBase.getTitle o = title
                ∧ ∀ j o', (i < j)%nat → os !! j = Some o'
                          → TaskBase.getTitle o' ≠ title)
    ∧ ∀ o old, titleMap s !! TaskBase.getTitle o = Some old →
        ∃ p s', add o s = Ok s'
          ∧ p ≠ old
          ∧ titleMap s' !! TaskBase.getTitle o = Some p
          ∧ heap s' !! p = Some o
          ∧ tasks s' = tasks s ++ [p]
          ∧ old ∈ tasks s
          ∧ heap s' !! old = heap s !! old
          ∧ ∀ title, titleMap s' !! title ≠ Some old.
Proof.
  destruct (run_adds_indexes os) as (s & Hrun & Hwf & [Hobj Hnd Hdom Hlast]).
  exists s. split; [done|]. split; [by apply mapM_Some_2|].
  split; [done|]. split; [done|]. split.
  { rewrite <-size_dom, Hdom.
    rewrite <-(size_list_to_set (C:=gset string) (remove_dups _))
      by apply NoDup_remove_dups.
    f_equal. apply set_eq. intros x.
    by rewrite !elem_of_list_to_set, elem_of_remove_dups. }
  split; [done|].
  intros o old Hold.
  destruct (wf_titleMap s Hwf _ _ Hold) as [(t & Ht & Hti) _].
  pose proof (fresh_heap s) as Hfresh.
  assert (fresh (dom (heap s)) ≠ old) as Hne by congruence.
  exists (fresh (dom (heap s))). eexists. split; [apply add_eq|]. simpl.
  split; [done|]. split; [apply lookup_insert_eq|].
  split; [apply lookup_insert_eq|]. split; [done|]. split.
  { apply Hlast in Hold as (i & _ & Hi & _). by eapply list_elem_of_lookup_2. }
  split; [by apply lookup_insert_ne|].
  intros title [[_ ?]|[Hneq Hold']]%lookup_insert_Some; [done|].
  destruct (wf_titleMap s Hwf _ _ Hold') as [(t' & Ht' & Hti') _].
  congruence.
Qed.

Example titleMap_after_adds_sample :
  ∃ s, run (Add <$> [Task "a" "1.1.2024" false; Task "b" "2.1.2024" false;
                     Task "a" "3.1.2024" false]) empty_state = Ok s
       ∧ tasks s = [1%positive; 2%positive; 3%positive]
       ∧ titleMap s = {[ "a" := 3%positive; "b" := 2%positive ]}.
Proof. eexists. split; [vm_compute; reflexivity|]. split; reflexivity. Qed.

(** ** Saving and loading again *)

Lemma put_insert (filename text old : string) (m : gmap string string)
  (u : gset string) :
  put {| opath := filename; ofailbit := false |} text
      {| files := <[filename := old]> m; unwritable := u |}
  = {| files := <[filename := old +:+ text]> m; unwritable := u |}.
Proof. unfold put; simpl. by rewrite alter_insert_eq. Qed.

Lemma unlines_app (l1 l2 : list string) :
  unlines (l1 ++ l2) = unlines l1 +:+ unlines l2.
Proof.
  induction l1 as [|l l1 IH]; [done|]. simpl.
  by rewrite IH, !append_assoc.
Qed.

Lemma save_loop (filename : string) (s : State) (mk : TaskBase.t → string)
  (f : ptr → FileSystem → outcome FileSystem) (v : list ptr)
  (os : list TaskBase.t) (m : gmap string string) (u : gset string) :
  (∀ p t old, heap s !! p = Some t →
     f p {| files := <[filename := old]> m; unwritable := u |}
     = Ok {| files := <[filename := old +:+ mk t +:+ endl]> m;
             unwritable := u |}) →
  Forall2 (λ p o, heap s !! p = Some o) v os →
  ∀ old,
    for_each f v {| files := <[filename := old]> m; unwritable := u |}
    = Ok {| files := <[filename := old +:+ unlines (mk <$> os)]> m;
            unwritable := u |}.
Proof.
  intros Hf Hobj. induction Hobj as [|p o v os Hp Hobj IH]; intros old; simpl.
  - by rewrite append_nil_r.
  - rewrite (Hf p o old Hp). simpl. rewrite IH. by rewrite !append_assoc.
Qed.

Lemma saveToFile_text (filename : string) (s : State) (fs : FileSystem)
  (aos dos : list TaskBase.t) :
  filename ∉ unwritable fs →
  objects s (tasks s) = Some aos →
  objects s (completedTasks s) = Some dos →
  saveToFile filename s fs
  = Ok {| files :=
            <[filename :=
                unlines ((TaskBase.toFileString <$> aos)
                         ++ ((λ o, "DONE:" +:+ TaskBase.toFileString o)
                               <$> dos))]> (files fs);
          unwritable := unwritable fs |}.
Proof.
  intros Hw Ha%mapM_Some_1 Hd%mapM_Some_1. unfold saveToFile, ofstream.
  rewrite decide_False by done.
  rewrite (save_loop filename s TaskBase.toFileString _ _ aos); [|
    intros p t old Hp; rewrite Hp; simpl; by rewrite !put_insert,
      !append_assoc|done].
  simpl.
  rewrite (save_loop filename s (λ o, "DONE:" +:+ TaskBase.toFileString o)
             _ _ dos); [|
    intros p t old Hp; rewrite Hp; simpl; by rewrite !put_insert,
      !append_assoc|done].
  by rewrite append_nil_l, unlines_app.
Qed.

(** ** Loading what was saved *)

Lemma free_of_app (c : ascii) (a b : string) :
  free_of c (a +:+ b) = free_of c a && free_of c b.
Proof.
  unfold free_of. induction a as [|x a IH]; [done|].
  rewrite append_cons. simpl. by rewrite IH, andb_assoc.
Qed.

Lemma lines_of_unlines (ls : list string) :
  Forall (λ l, free_of "010" l = true) ls → lines_of (unlines ls) = ls.
Proof.
  induction 1 as [|l ls Hl Hls IH]; [done|].
  rewrite lines_of_read_until. simpl.
  change (endl +:+ unlines ls) with (String "010" (unlines ls)).
  rewrite read_until_found by done. by rewrite IH.
Qed.

Lemma getline_found (x rest : string) (delim : ascii) (str : string) :
  free_of delim x = true →
  getline (istringstream (x +:+ String delim rest)) str delim
  = (istringstream rest, x).
Proof.
  intros Hx. unfold getline, istringstream; simpl.
  by rewrite read_until_found.
Qed.

Lemma getline_last (x : string) (delim : ascii) (str : string) :
  free_of delim x = true →
  getline (istringstream x) str delim
  = ({| buf := EmptyString; eofbit := true;
        failbit := Nat.eqb (String.length x) 0 |}, x).
Proof.
  intros Hx. unfold getline, istringstream; simpl.
  by rewrite read_until_end.
Qed.

Lemma prefix_app_free (p t r : string) (c : ascii) :
  free_of c p = true →
  String.prefix p (t +:+ String c r) = String.prefix p t.
Proof.
  revert t. induction p as [|a p IH]; intros t Hp.
  - by destruct t.
  - simpl in Hp. apply andb_prop in Hp as [Ha Hp].
    apply negb_true_iff, Ascii.eqb_neq in Ha.
    destruct t as [|b t]; rewrite ?append_nil_l, ?append_cons; simpl.
    + by destruct (ascii_dec a c).
    + destruct (ascii_dec a b); [by apply IH|done].
Qed.

Lemma parse_line_read_record (line : string) :
  parse_line line =
  if String.prefix "DONE:" line then (true, read_record (substr line 5))
  else (false, read_record line).
Proof. unfold parse_line, rfind0. by destruct (String.prefix "DONE:" line). Qed.

Lemma storable_fields (o : TaskBase.t) :
  storable o = true →
  free_of ";" (TaskBase.getTitle o) = true
  ∧ free_of "010" (TaskBase.getTitle o) = true
  ∧ free_of ";" (TaskBase.getDeadline o) = true
  ∧ free_of "010" (TaskBase.getDeadline o) = true
  ∧ free_of ";" (TaskBase.getCategory o) = true
  ∧ free_of "010" (TaskBase.getCategory o) = true.
Proof.
  unfold storable. rewrite !andb_true_iff. tauto.
Qed.

Lemma read_record_toFileString (o : TaskBase.t) :
  storable o = true → read_record (TaskBase.toFileString o) = reloaded o.
Proof.
  intros (Hti & _ & Hd & _ & Hcat & _)%storable_fields.
  unfold read_record.
  destruct o as [ti d c|ti d cat c]; simpl in *.
  - change (ti +:+ ";" +:+ d +:+ ";" +:+ (if c then "1" else "0"))
      with (ti +:+ String ";" (d +:+ String ";" (if c then "1" else "0"))).
    rewrite !getline_found by done.
    rewrite getline_last by (by destruct c).
    unfold getline; simpl. by destruct c.
  - change (ti +:+ ";" +:+ d +:+ ";" +:+ (if c then "1" else "0")
            +:+ ";" +:+ cat)
      with (ti +:+ String ";" (d +:+ String ";"
              ((if c then "1" else "0") +:+ String ";" cat))).
    rewrite !getline_found by (done || by destruct c).
    rewrite getline_last by done.
    unfold stream_ok; simpl. destruct cat, c; done.
Qed.

Lemma toFileString_one_line (o : TaskBase.t) :
  storable o = true → free_of "010" (TaskBase.toFileString o) = true.
Proof.
  intros (_ & Hti & _ & Hd & _ & Hcat)%storable_fields.
  destruct o as [ti d c|ti d cat c]; simpl in *;
    rewrite !free_of_app, ?Hti, ?Hd, ?Hcat; by destruct c.
Qed.

Lemma prefix_toFileString (o : TaskBase.t) :
  String.prefix "DONE:" (TaskBase.toFileString o)
  = String.prefix "DONE:" (TaskBase.getTitle o).
Proof.
  destruct o as [ti d c|ti d cat c]; simpl;
    by apply (prefix_app_free "DONE:" ti _ ";").
Qed.

Lemma action_of_line_active (o : TaskBase.t) :
  storable o = true →
  String.prefix "DONE:" (TaskBase.getTitle o) = false →
  action_of_line (TaskBase.toFileString o) = AAdd (reloaded o).
Proof.
  intros Hs Hp. unfold action_of_line.
  rewrite parse_line_read_record, prefix_toFileString, Hp.
  by rewrite read_record_toFileString.
Qed.

Lemma action_of_line_done (o : TaskBase.t) :
  storable o = true →
  action_of_line ("DONE:" +:+ TaskBase.toFileString o) = AAddDone (reloaded o).
Proof.
  intros Hs. unfold action_of_line. rewrite parse_line_read_record.
  change (String.prefix "DONE:" ("DONE:" +:+ TaskBase.toFileString o))
    with (String.prefix "" (TaskBase.toFileString o)).
  assert (String.prefix "" (TaskBase.toFileString o) = true) as ->
    by (by destruct (TaskBase.toFileString o)).
  change (substr ("DONE:" +:+ TaskBase.toFileString o) 5)
    with (TaskBase.toFileString o).
  by rewrite read_record_toFileString.
Qed.

Lemma fields_of_reloaded (o : TaskBase.t) : fields_of (reloaded o) = fields_of o.
Proof. by destruct o as [ti d c|ti d [|x cat] c]. Qed.

Lemma objects_new (s : State) (o : TaskBase.t) (v : list ptr)
  (os : list TaskBase.t) :
  Forall2 (λ p t, heap s !! p = Some t) v os →
  Forall2 (λ p t, <[fresh (dom (heap s)) := o]> (heap s) !! p = Some t) v os.
Proof.
  intros Hobj. eapply Forall2_impl; [done|]. intros p t Hp. simpl in Hp.
  pose proof (fresh_heap s). rewrite lookup_insert_ne; [done|congruence].
Qed.

Lemma adds_objects (os ts ds : list TaskBase.t) (s : State) :
  Forall2 (λ p t, heap s !! p = Some t) (tasks s) ts →
  Forall2 (λ p t, heap s !! p = Some t) (completedTasks s) ds →
  ∃ s', for_each act (AAdd <$> os) s = Ok s'
    ∧ Forall2 (λ p t, heap s' !! p = Some t) (tasks s') (ts ++ os)
    ∧ Forall2 (λ p t, heap s' !! p = Some t) (completedTasks s') ds.
Proof.
  revert ts s. induction os as [|o os IH]; intros ts s Ht Hd; simpl.
  - exists s. by rewrite app_nil_r.
  - rewrite add_eq. simpl.
    edestruct (IH (ts ++ [o])) as (s' & Hrun & Ht' & Hd'); [..|
      exists s'; split; [exact Hrun|]; by rewrite <-app_assoc in Ht'];
      simpl.
    + apply Forall2_app; [by apply objects_new|].
      constructor; [apply lookup_insert_eq|constructor].
    + by apply objects_new.
Qed.

Lemma adds_done_objects (os ts ds : list TaskBase.t) (s : State) :
  Forall2 (λ p t, heap s !! p = Some t) (tasks s) ts →
  Forall2 (λ p t, heap s !! p = Some t) (completedTasks s) ds →
  ∃ s', for_each act (AAddDone <$> os) s = Ok s'
    ∧ Forall2 (λ p t, heap s' !! p = Some t) (tasks s') ts
    ∧ Forall2 (λ p t, heap s' !! p = Some t) (completedTasks s') (ds ++ os).
Proof.
  revert ds s. induction os as [|o os IH]; intros ds s Ht Hd; simpl.
  - exists s. by rewrite app_nil_r.
  - edestruct (IH (ds ++ [o])) as (s' & Hrun & Ht' & Hd'); [..|
      exists s'; split; [exact Hrun|]; by rewrite <-app_assoc in Hd'];
      simpl.
    + by apply objects_new.
    + apply Forall2_app; [by apply objects_new|].
      constructor; [apply lookup_insert_eq|constructor].
Qed.

(** C1, as amended.  Let no title, deadline or category of the store hold
    a semicolon or a line end, and let no active title begin with [DONE:].
    Then saving to a path that can be written and loading that file into an
    empty store gives back, in the same order, the titles, deadlines,
    completed flags and categories of the active tasks, and likewise of the
    completed tasks. *)
Theorem save_load_roundtrip (filename : string) (fs : FileSystem)
  (s : State) (aos dos : list TaskBase.t) :
  filename ∉ unwritable fs →
  objects s (tasks s) = Some aos →
  objects s (completedTasks s) = Some dos →
  Forall (λ o, storable o = true) (aos ++ dos) →
  Forall (λ o, String.prefix "DONE:" (TaskBase.getTitle o) = false) aos →
  ∃ fs' s' aos' dos',
    saveToFile filename s fs = Ok fs'
    ∧ loadFromFile filename fs' empty_state = Ok s'
    ∧ objects s' (tasks s') = Some aos'
    ∧ objects s' (completedTasks s') = Some dos'
    ∧ fields_of <$> aos' = fields_of <$> aos
    ∧ fields_of <$> dos' = fields_of <$> dos.
Proof.
  intros Hw Ha Hd [Hsa Hsd]%Forall_app Hpre.
  set (ls := (TaskBase.toFileString <$> aos)
             ++ ((λ o, "DONE:" +:+ TaskBase.toFileString o) <$> dos)).
  assert (lines_of (unlines ls) = ls) as Hlines.
  { apply lines_of_unlines, Forall_app.
    split; apply Forall_fmap, Forall_forall; intros o Ho; simpl.
    - rewrite Forall_forall in Hsa. by apply toFileString_one_line, Hsa.
    - rewrite Forall_forall in Hsd. rewrite free_of_app.
      by rewrite toFileString_one_line by by apply Hsd. }
  assert (action_of_line <$> ls
          = (AAdd <$> (reloaded <$> aos)) ++ (AAddDone <$> (reloaded <$> dos)))
    as Hacts.
  { unfold ls. rewrite fmap_app, <-!list_fmap_compose. f_equal.
    - apply list_fmap_ext. intros i o Ho%list_elem_of_lookup_2. simpl.
      rewrite Forall_forall in Hsa, Hpre. apply action_of_line_active; auto.
    - apply list_fmap_ext. intros i o Ho%list_elem_of_lookup_2. simpl.
      rewrite Forall_forall in Hsd. apply action_of_line_done; auto. }
  destruct (adds_objects (reloaded <$> aos) [] [] empty_state)
    as (s1 & Hs1 & Ht1 & Hd1); [constructor..|].
  destruct (adds_done_objects (reloaded <$> dos) _ _ s1 Ht1 Hd1)
    as (s2 & Hs2 & Ht2 & Hd2).
  exists {| files := <[filename := unlines ls]> (files fs);
            unwritable := unwritable fs |},
         s2, (reloaded <$> aos), (reloaded <$> dos).
  split; [by apply saveToFile_text|].
  split.
  { rewrite loadFromFile_actions. simpl. rewrite lookup_insert_eq.
    rewrite Hlines, Hacts, for_each_app, Hs1. done. }
  split; [by apply mapM_Some_2|]. split; [by apply mapM_Some_2|].
  rewrite <-!list_fmap_compose.
  split; apply list_fmap_ext; intros ? o _; apply fields_of_reloaded.
Qed.

Lemma save_load_roundtrip_witness :
  ∃ fs' s' aos' dos',
    saveToFile "tasks.txt" sample_state sample_fs = Ok fs'
    ∧ loadFromFile "tasks.txt" fs' empty_state = Ok s'
    ∧ objects s' (tasks s') = Some aos'
    ∧ objects s' (completedTasks s') = Some dos'
    ∧ fields_of <$> aos'
      = fields_of <$> [Task "Buy milk" "01.01.2025" false;
                       CategorizedTask "Report" "10.10.2024" "Work" false;
                       CategorizedTask "Report" "11.10.2024" "Work" false]
    ∧ fields_of <$> dos'
      = fields_of <$> [CategorizedTask "Call" "1.1.2024" "Home" true].
Proof.
  apply (save_load_roundtrip "tasks.txt" sample_fs sample_state).
  - vm_compute. discriminate.
  - reflexivity.
  - reflexivity.
  - repeat constructor.
  - repeat constructor.
Defined.

(** C1 as stated fails.  A title with a semicolon comes back cut at the
    semicolon, the rest of it taken for the deadline; and an active task
    whose title begins with [DONE:] comes back as a completed one. *)
Lemma roundtrip_loses_fields :
  (∃ s fs' s',
     run [Add (Task "a;b" "1.1.2024" false)] empty_state = Ok s
     ∧ saveToFile "tasks.txt" s sample_fs = Ok fs'
     ∧ loadFromFile "tasks.txt" fs' empty_state = Ok s'
     ∧ objects s (tasks s) = Some [Task "a;b" "1.1.2024" false]
     ∧ objects s' (tasks s') = Some [CategorizedTask "a" "b" "0" false])
  ∧ (∃ s fs' s',
       run [Add (Task "DONE:x" "1.1.2024" false)] empty_state = Ok s
       ∧ saveToFile "tasks.txt" s sample_fs = Ok fs'
       ∧ loadFromFile "tasks.txt" fs' empty_state = Ok s'
       ∧ objects s (tasks s) = Some [Task "DONE:x" "1.1.2024" false]
       ∧ objects s' (tasks s') = Some []
       ∧ objects s' (completedTasks s') = Some [Task "x" "1.1.2024" false]).
Proof.
  split.
  - eexists _, _, _. split; [vm_compute; reflexivity|].
    split; [vm_compute; reflexivity|]. split; [vm_compute; reflexivity|].
    split; reflexivity.
  - eexists _, _, _. split; [vm_compute; reflexivity|].
    split; [vm_compute; reflexivity|]. split; [vm_compute; reflexivity|].
    split; [reflexivity|]. split; reflexivity.
Qed.

(** * Further properties of the store *)

(** ** Ownership of the objects *)

Lemma erase_remove_split (p : ptr) (v : list ptr) :
  NoDup v → p ∈ v →
  ∃ l1 l2, v = l1 ++ p :: l2 ∧ erase_remove p v = l1 ++ l2
           ∧ (p ∉ l1) ∧ (p ∉ l2).
Proof.
  intros Hnd Hp. apply list_elem_of_split in Hp as (l1 & l2 & ->).
  apply NoDup_app in Hnd as (Hnd1 & Hdisj & Hnd2).
  apply NoDup_cons in Hnd2 as [Hp2 Hnd2].
  assert (p ∉ l1) as Hp1.
  { intros Hin. apply (Hdisj p Hin). apply list_elem_of_here. }
  exists l1, l2. split; [done|]. split; [|done].
  unfold erase_remove. rewrite filter_app, filter_cons_False by (intros ?; done).
  fold (erase_remove p l1). fold (erase_remove p l2).
  by rewrite !erase_remove_absent.
Qed.

Lemma owned_empty : owned empty_state.
Proof.
  split; simpl.
  - constructor.
  - intros p. rewrite lookup_empty. split; [by intros [? ?]|].
    by intros ?%elem_of_nil.
Qed.

Lemma owned_indexed_active (s : State) (title : string) (p : ptr) :
  wf s → owned s → titleMap s !! title = Some p → p ∈ tasks s.
Proof.
  intros Hwf [_ Hlive] Hp.
  destruct (wf_titleMap s Hwf _ _ Hp) as [(t & Ht & _) Hnc].
  assert (p ∈ tasks s ++ completedTasks s) as Hin by (apply Hlive; eauto).
  apply elem_of_app in Hin as [?|?]; done.
Qed.

Lemma owned_act (a : action) (s s' : State) :
  wf s → owned s → act a s = Ok s' → owned s'.
Proof.
  intros Hwf Hown Hact. pose proof Hown as [Hnd Hlive].
  destruct (act_cases a s s' Hwf Hact)
    as [(o & Ha & Hfresh & Hheap & Hadd & Hdone)
       |[(title & Ha & Hnone & ->)
        |(title & p & t & Ha & Hp & Ht & Hnc & Htasks & Hmap & Hc & Hd)]].
  - set (q := fresh (dom (heap s))) in *.
    assert (q ∉ tasks s ++ completedTasks s) as Hq.
    { intros [x Hx]%Hlive. congruence. }
    assert (tasks s' ++ completedTasks s'
            ≡ₚ q :: (tasks s ++ completedTasks s)) as Hperm.
    { destruct Ha as [->| ->].
      - destruct (Hadd eq_refl) as (-> & -> & _).
        rewrite <-app_assoc. simpl. by rewrite <-Permutation_middle.
      - destruct (Hdone eq_refl) as (-> & -> & _).
        rewrite app_assoc. by rewrite <-Permutation_cons_append. }
    split.
    + rewrite Hperm. by apply NoDup_cons.
    + intros x. rewrite Hperm, Hheap, elem_of_cons, <-Hlive.
      rewrite lookup_insert_is_Some.
      destruct (decide (q = x)) as [->|Hne]; intuition congruence.
  - done.
  - assert (p ∈ tasks s) as Hin by (by eapply owned_indexed_active).
    apply NoDup_app in Hnd as Hparts. destruct Hparts as (Hnd1 & _ & _).
    destruct (erase_remove_split p (tasks s) Hnd1 Hin)
      as (l1 & l2 & Hsplit & Herase & Hp1 & Hp2).
    assert (tasks s ++ completedTasks s
            ≡ₚ p :: (erase_remove p (tasks s) ++ completedTasks s)) as Hperm.
    { rewrite Herase. rewrite Hsplit at 1.
      rewrite <-!app_assoc. simpl. by rewrite <-Permutation_middle. }
    rewrite Hperm in Hnd. apply NoDup_cons in Hnd as [Hpnew Hnd].
    destruct Ha as [->| ->].
    + destruct (Hc eq_refl) as (Hh & Hcs).
      assert (erase_remove p (tasks s) ++ completedTasks s ++ [p]
              ≡ₚ tasks s ++ completedTasks s) as Hperm2.
      { rewrite Hperm, app_assoc. by rewrite <-Permutation_cons_append. }
      split; rewrite Htasks, Hcs.
      * rewrite Hperm2, Hperm. by apply NoDup_cons.
      * intros x. rewrite Hperm2, Hh, <-Hlive, lookup_insert_is_Some.
        destruct (decide (p = x)) as [->|Hne]; intuition eauto.
    + destruct (Hd eq_refl) as (Hh & Hcs).
      split; rewrite Htasks, Hcs; [done|].
      intros x. rewrite Hh, lookup_delete_is_Some, Hlive, Hperm, elem_of_cons.
      split.
      * intros [Hne [?|?]]; [congruence|done].
      * intros Hx. split; [intros ->; done|by right].
Qed.

Lemma owned_run (cs : list command) (s : State) :
  wf s → owned s → ∃ s', run cs s = Ok s' ∧ wf s' ∧ owned s'.
Proof.
  intros Hwf Hown. apply (run_invariant owned); [|done..].
  intros a s1 s2 Hwf1 Hown1 Hact. by eapply owned_act.
Qed.

Lemma sample_state_owned : owned sample_state.
Proof.
  destruct (owned_run sample_commands empty_state wf_empty owned_empty)
    as (s & Hs & _ & Hown).
  rewrite sample_state_run in Hs. by injection Hs as <-.
Qed.

(** ** The destructor *)

Lemma delete_object_live (p : ptr) (t : TaskBase.t) (s : State) :
  heap s !! p = Some t →
  delete_object p s
  = Ok {| heap := delete p (heap s); tasks := tasks s;
          completedTasks := completedTasks s; titleMap := titleMap s;
          categories := categories s |}.
Proof. unfold delete_object. by intros ->. Qed.

Lemma delete_objects (l : list ptr) (s : State) :
  NoDup l → (∀ p, p ∈ l → is_Some (heap s !! p)) →
  ∃ s', for_each delete_object l s = Ok s'
        ∧ tasks s' = tasks s ∧ completedTasks s' = completedTasks s
        ∧ ∀ q, heap s' !! q = if decide (q ∈ l) then None else heap s !! q.
Proof.
  revert s. induction l as [|p l IH]; intros s Hnd Hlive.
  - exists s. split; [done|]. split; [done|]. split; [done|].
    intros q. by rewrite decide_False by apply not_elem_of_nil.
  - apply NoDup_cons in Hnd as [Hp Hnd].
    destruct (Hlive p) as [t Ht]; [apply list_elem_of_here|].
    destruct (IH {| heap := delete p (heap s); tasks := tasks s;
                    completedTasks := completedTasks s;
                    titleMap := titleMap s; categories := categories s |})
      as (s' & Hrun & Htasks & Hcompleted & Hheap); [done|..].
    { cbn [heap]. intros q Hq. rewrite lookup_delete_ne by (intros ->; done).
      apply Hlive. by apply list_elem_of_further. }
    exists s'. split.
    { cbn [for_each]. by rewrite (delete_object_live p t). }
    split; [done|]. split; [done|].
    intros q. rewrite Hheap. cbn [heap].
    destruct (decide (q = p)) as [->|Hne].
    + rewrite lookup_delete_eq, (decide_True _ _ (list_elem_of_here _ _)).
      by case_decide.
    + rewrite lookup_delete_ne by done.
      destruct (decide (q ∈ l)) as [Hq|Hq].
      * by rewrite decide_True by by apply list_elem_of_further.
      * rewrite decide_False; [done|].
        intros [?|?]%elem_of_cons; done.
Qed.

(** X1.  In a store where every live object is held once by one of the two
    lists, as in the empty store, any commands whatever lead to a store
    that the destructor clears without fault: each object is deleted, none
    twice, and the free store is left empty. *)
Theorem destructor_frees_all (cs : list command) (s : State) :
  wf s → owned s →
  ∃ s1 s2, run cs s = Ok s1 ∧ owned s1 ∧ destroy s1 = Ok s2 ∧ heap s2 = ∅.
Proof.
  intros Hwf Hown.
  destruct (owned_run cs s Hwf Hown) as (s1 & Hrun & Hwf1 & Hown1).
  pose proof Hown1 as [Hnd Hlive].
  apply NoDup_app in Hnd as (Hnd1 & Hdisj & Hnd2).
  destruct (delete_objects (tasks s1) s1 Hnd1)
    as (sa & Ha & Hta & Hca & Hha); [apply (wf_tasks s1 Hwf1)|].
  destruct (delete_objects (completedTasks s1) sa Hnd2)
    as (sb & Hb & Htb & Hcb & Hhb).
  { intros p Hp. rewrite Hha, decide_False.
    - by apply (wf_completed s1 Hwf1).
    - intros Hin. by apply (Hdisj p Hin). }
  exists s1, sb. split; [done|]. split; [done|]. split.
  - unfold destroy. rewrite Ha. simpl. by rewrite Hca.
  - apply map_eq. intros q. rewrite lookup_empty, Hhb, Hha.
    destruct (decide (q ∈ completedTasks s1)) as [?|Hq2]; [done|].
    destruct (decide (q ∈ tasks s1)) as [?|Hq1]; [done|].
    apply eq_None_not_Some. intros Hq%Hlive.
    apply elem_of_app in Hq as [?|?]; done.
Qed.

Lemma destructor_frees_all_witness :
  ∃ s1 s2, run [Delete "Report"; Add (Task "Buy milk" "1.1.2025" false);
                Complete "Buy milk"] sample_state = Ok s1
    ∧ owned s1 ∧ destroy s1 = Ok s2 ∧ heap s2 = ∅.
Proof.
  apply (destructor_frees_all _ sample_state sample_state_wf
           sample_state_owned).
Defined.

(** ** What completing and deleting remove *)

Lemma objects_agree (s s' : State) (v : list ptr) :
  (∀ p, p ∈ v → heap s' !! p = heap s !! p) → objects s' v = objects s v.
Proof.
  intros Hv. unfold objects. apply Forall_mapM_ext, Forall_forall. auto.
Qed.

Lemma objects_app (s : State) (v1 v2 : list ptr) (ts : list TaskBase.t) :
  objects s (v1 ++ v2) = Some ts ↔
  ∃ ts1 ts2, ts = ts1 ++ ts2 ∧ objects s v1 = Some ts1
             ∧ objects s v2 = Some ts2.
Proof.
  unfold objects. rewrite mapM_Some. split.
  - intros (ts1 & ts2 & H1 & H2 & ->)%Forall2_app_inv_l.
    exists ts1, ts2. by rewrite !mapM_Some.
  - intros (ts1 & ts2 & -> & H1%mapM_Some & H2%mapM_Some).
    by apply Forall2_app.
Qed.

Lemma objects_cons (s : State) (p : ptr) (v : list ptr)
  (ts : list TaskBase.t) :
  objects s (p :: v) = Some ts ↔
  ∃ t ts', ts = t :: ts' ∧ heap s !! p = Some t ∧ objects s v = Some ts'.
Proof.
  unfold objects. rewrite mapM_Some. split.
  - intros (t & ts' & H1 & H2 & ->)%Forall2_cons_inv_l.
    exists t, ts'. by rewrite mapM_Some.
  - intros (t & ts' & -> & H1 & H2%mapM_Some). by constructor.
Qed.

(** The active list around an indexed task, and the objects it refers
    to. *)
Lemma indexed_task_split (s : State) (title : string) (p : ptr)
  (ts : list TaskBase.t) :
  wf s → owned s → titleMap s !! title = Some p →
  objects s (tasks s) = Some ts →
  ∃ l1 l2 ts1 t ts2,
    tasks s = l1 ++ p :: l2 ∧ erase_remove p (tasks s) = l1 ++ l2
    ∧ (p ∉ l1 ++ l2) ∧ (p ∉ completedTasks s)
    ∧ heap s !! p = Some t ∧ TaskBase.getTitle t = title
    ∧ ts = ts1 ++ t :: ts2
    ∧ objects s l1 = Some ts1 ∧ objects s l2 = Some ts2.
Proof.
  intros Hwf Hown Hp Hts.
  assert (p ∈ tasks s) as Hin by (by eapply owned_indexed_active).
  destruct (wf_titleMap s Hwf _ _ Hp) as [(t & Ht & Hti) Hnc].
  pose proof (owned_nodup s Hown) as Hnd.
  apply NoDup_app in Hnd as (Hnd1 & _ & _).
  destruct (erase_remove_split p (tasks s) Hnd1 Hin)
    as (l1 & l2 & Hsplit & Herase & Hp1 & Hp2).
  rewrite Hsplit in Hts.
  apply objects_app in Hts as (ts1 & ts' & -> & H1 & H2).
  apply objects_cons in H2 as (t' & ts2 & -> & Ht' & H2).
  assert (t' = t) as -> by congruence.
  exists l1, l2, ts1, t, ts2.
  split; [done|]. split; [done|]. split.
  { intros [?|?]%elem_of_app; done. }
  done.
Qed.

(** X2.  When the title is indexed, [markCompleted] takes exactly one task
    out of the active list, the others keeping their order, and puts it,
    flagged completed, at the end of the completed list; so do the two
    listings change. *)
Theorem markCompleted_moves_one (title : string) (p : ptr) (s : State)
  (ts ds : list TaskBase.t) :
  wf s → owned s → titleMap s !! title = Some p →
  objects s (tasks s) = Some ts →
  objects s (completedTasks s) = Some ds →
  ∃ ts1 t ts2 s',
    ts = ts1 ++ t :: ts2
    ∧ TaskBase.getTitle t = title
    ∧ markCompleted title s = Ok s'
    ∧ objects s' (tasks s') = Some (ts1 ++ ts2)
    ∧ objects s' (completedTasks s') = Some (ds ++ [TaskBase.markCompleted t])
    ∧ TaskBase.isCompleted (TaskBase.markCompleted t) = true
    ∧ viewTasks false s' = Ok (TaskBase.display <$> (ts1 ++ ts2))
    ∧ viewCompleted s'
      = Ok (TaskBase.display <$> (ds ++ [TaskBase.markCompleted t])).
Proof.
  intros Hwf Hown Hp Hts Hds.
  destruct (indexed_task_split s title p ts Hwf Hown Hp Hts)
    as (l1 & l2 & ts1 & t & ts2 & Hsplit & Herase & Hpl & Hpc & Ht & Hti
        & -> & H1 & H2).
  set (s' := {| heap := <[p := TaskBase.markCompleted t]> (heap s);
                tasks := erase_remove p (tasks s);
                completedTasks := completedTasks s ++ [p];
                titleMap := delete title (titleMap s);
                categories := categories s |}).
  assert (objects s' (tasks s') = Some (ts1 ++ ts2)) as Hts'.
  { cbn [tasks s']. rewrite Herase, (objects_agree s).
    - apply objects_app. eauto.
    - intros q Hq. cbn [heap s']. rewrite lookup_insert_ne; [done|].
      intros <-. done. }
  assert (objects s' (completedTasks s')
          = Some (ds ++ [TaskBase.markCompleted t])) as Hds'.
  { cbn [completedTasks s'].
    apply objects_app. exists ds, [TaskBase.markCompleted t].
    split; [done|]. split.
    - rewrite (objects_agree s); [done|].
      intros q Hq. cbn [heap s']. rewrite lookup_insert_ne; [done|].
      intros <-. done.
    - apply objects_cons. exists (TaskBase.markCompleted t), [].
      split; [done|]. split; [apply lookup_insert_eq|done]. }
  exists ts1, t, ts2, s'. split; [done|]. split; [done|].
  split; [by apply markCompleted_present|].
  split; [done|]. split; [done|]. split; [by destruct t|].
  split; [by apply display_all_objects|by apply display_all_objects].
Qed.

Lemma markCompleted_moves_one_witness :
  ∃ ts1 t ts2 s',
    [Task "Buy milk" "01.01.2025" false;
     CategorizedTask "Report" "10.10.2024" "Work" false;
     CategorizedTask "Report" "11.10.2024" "Work" false] = ts1 ++ t :: ts2
    ∧ TaskBase.getTitle t = "Buy milk"
    ∧ markCompleted "Buy milk" sample_state = Ok s'
    ∧ objects s' (tasks s') = Some (ts1 ++ ts2)
    ∧ objects s' (completedTasks s')
      = Some ([CategorizedTask "Call" "1.1.2024" "Home" true]
              ++ [TaskBase.markCompleted t])
    ∧ TaskBase.isCompleted (TaskBase.markCompleted t) = true
    ∧ viewTasks false s' = Ok (TaskBase.display <$> (ts1 ++ ts2))
    ∧ viewCompleted s'
      = Ok (TaskBase.display
              <$> ([CategorizedTask "Call" "1.1.2024" "Home" true]
                   ++ [TaskBase.markCompleted t])).
Proof.
  apply (markCompleted_moves_one "Buy milk" 1%positive sample_state _ _
           sample_state_wf sample_state_owned); reflexivity.
Defined.

(** X3.  When the title is indexed, [deleteTask] takes exactly one task out
    of the active list, the others keeping their order, and destroys that
    object and no other; the completed list is as it was. *)
Theorem deleteTask_removes_one (title : string) (p : ptr) (s : State)
  (ts ds : list TaskBase.t) :
  wf s → owned s → titleMap s !! title = Some p →
  objects s (tasks s) = Some ts →
  objects s (completedTasks s) = Some ds →
  ∃ ts1 t ts2 s',
    ts = ts1 ++ t :: ts2
    ∧ TaskBase.getTitle t = title
    ∧ deleteTask title s = Ok s'
    ∧ objects s' (tasks s') = Some (ts1 ++ ts2)
    ∧ objects s' (completedTasks s') = Some ds
    ∧ heap s' = delete p (heap s)
    ∧ viewTasks false s' = Ok (TaskBase.display <$> (ts1 ++ ts2))
    ∧ viewCompleted s' = Ok (TaskBase.display <$> ds).
Proof.
  intros Hwf Hown Hp Hts Hds.
  destruct (indexed_task_split s title p ts Hwf Hown Hp Hts)
    as (l1 & l2 & ts1 & t & ts2 & Hsplit & Herase & Hpl & Hpc & Ht & Hti
        & -> & H1 & H2).
  set (s' := {| heap := delete p (heap s);
                tasks := erase_remove p (tasks s);
                completedTasks := completedTasks s;
                titleMap := delete title (titleMap s);
                categories := categories s |}).
  assert (objects s' (tasks s') = Some (ts1 ++ ts2)) as Hts'.
  { cbn [tasks s']. rewrite Herase, (objects_agree s).
    - apply objects_app. eauto.
    - intros q Hq. cbn [heap s']. rewrite lookup_delete_ne; [done|].
      intros <-. done. }
  assert (objects s' (completedTasks s') = Some ds) as Hds'.
  { cbn [completedTasks s']. rewrite (objects_agree s); [done|].
    intros q Hq. cbn [heap s']. rewrite lookup_delete_ne; [done|].
    intros <-. done. }
  exists ts1, t, ts2, s'. split; [done|]. split; [done|].
  split; [by apply (deleteTask_present _ _ t)|].
  split; [done|]. split; [done|]. split; [done|].
  split; [by apply display_all_objects|by apply display_all_objects].
Qed.

Lemma deleteTask_removes_one_witness :
  ∃ ts1 t ts2 s',
    [Task "Buy milk" "01.01.2025" false;
     CategorizedTask "Report" "10.10.2024" "Work" false;
     CategorizedTask "Report" "11.10.2024" "Work" false] = ts1 ++ t :: ts2
    ∧ TaskBase.getTitle t = "Report"
    ∧ deleteTask "Report" sample_state = Ok s'
    ∧ objects s' (tasks s') = Some (ts1 ++ ts2)
    ∧ objects s' (completedTasks s')
      = Some [CategorizedTask "Call" "1.1.2024" "Home" true]
    ∧ heap s' = delete 3%positive (heap sample_state)
    ∧ viewTasks false s' = Ok (TaskBase.display <$> (ts1 ++ ts2))
    ∧ viewCompleted s'
      = Ok (TaskBase.display
              <$> [CategorizedTask "Call" "1.1.2024" "Home" true]).
Proof.
  apply (deleteTask_removes_one "Report" 3%positive sample_state _ _
           sample_state_wf sample_state_owned); reflexivity.
Defined.

(** X4.  Adding an object and deleting its title at once gives back the
    free store and both lists as they were.  The index and the categories
    do not come back: an entry the title had before is gone, and the
    category of the object stays known. *)
Theorem add_then_delete (o : TaskBase.t) (s : State) :
  wf s →
  ∃ s1 s2, add o s = Ok s1
    ∧ deleteTask (TaskBase.getTitle o) s1 = Ok s2
    ∧ heap s2 = heap s
    ∧ tasks s2 = tasks s
    ∧ completedTasks s2 = completedTasks s
    ∧ titleMap s2 = delete (TaskBase.getTitle o) (titleMap s)
    ∧ categories s2 = categories s1
    ∧ categories s ⊆ categories s2.
Proof.
  intros Hwf. pose proof (fresh_heap s) as Hfresh.
  set (p := fresh (dom (heap s))) in *.
  eexists. eexists. split; [apply add_eq|]. fold p.
  split.
  { apply (deleteTask_present _ p o); simpl; apply lookup_insert_eq. }
  simpl. split; [by apply delete_insert_id|].
  split.
  { unfold erase_remove. rewrite filter_app.
    fold (erase_remove p (tasks s)). rewrite erase_remove_absent.
    - by rewrite filter_cons_False, filter_nil, app_nil_r by (intros ?; done).
    - intros [t Ht]%(wf_tasks s Hwf). congruence. }
  split; [done|]. split; [by rewrite delete_insert_eq|].
  split; [done|].
  case_match; [done|apply union_subseteq_r].
Qed.

Lemma add_then_delete_witness :
  ∃ s1 s2, add (CategorizedTask "Report" "1.1.2025" "Office" false)
             sample_state = Ok s1
    ∧ deleteTask "Report" s1 = Ok s2
    ∧ heap s2 = heap sample_state
    ∧ tasks s2 = tasks sample_state
    ∧ completedTasks s2 = completedTasks sample_state
    ∧ titleMap s2 = delete "Report" (titleMap sample_state)
    ∧ categories s2 = categories s1
    ∧ categories sample_state ⊆ categories s2.
Proof.
  apply (add_then_delete (CategorizedTask "Report" "1.1.2025" "Office" false)
           sample_state sample_state_wf).
Defined.

(** ** Loading, whatever the file *)

Lemma load_actions_append (lines : list string) (s : State) :
  ∃ s' new_tasks new_completed,
    for_each act (action_of_line <$> lines) s = Ok s'
    ∧ tasks s' = tasks s ++ new_tasks
    ∧ completedTasks s' = completedTasks s ++ new_completed
    ∧ (length new_tasks + length new_completed = length lines)%nat
    ∧ (∀ p, is_Some (heap s !! p) → heap s' !! p = heap s !! p)
    ∧ categories s ⊆ categories s'
    ∧ (∀ title, is_Some (titleMap s !! title)
                → is_Some (titleMap s' !! title)).
Proof.
  revert s. induction lines as [|line lines IH]; intros s.
  - exists s, [], []. simpl. rewrite !app_nil_r. done.
  - rewrite fmap_cons. cbn [for_each].
    pose proof (fresh_heap s) as Hfresh.
    assert (∃ s1 a d, act (action_of_line line) s = Ok s1
              ∧ tasks s1 = tasks s ++ a
              ∧ completedTasks s1 = completedTasks s ++ d
              ∧ (length a + length d = 1)%nat
              ∧ (∀ p, is_Some (heap s !! p) → heap s1 !! p = heap s !! p)
              ∧ categories s ⊆ categories s1
              ∧ (∀ title, is_Some (titleMap s !! title)
                          → is_Some (titleMap s1 !! title)))
      as (s1 & a & d & -> & Ht1 & Hc1 & Hlen1 & Hh1 & Hcat1 & Hm1).
    { unfold action_of_line. destruct (parse_line line) as [[] o]; simpl.
      - rewrite add_done_eq. eexists _, [], [_]. split; [done|]. simpl.
        rewrite app_nil_r. split_and!; try done.
        intros p [t Ht]. rewrite lookup_insert_ne; [done|congruence].
      - rewrite add_eq. eexists _, [_], []. split; [done|]. simpl.
        rewrite app_nil_r. split_and!; try done.
        + intros p [t Ht]. rewrite lookup_insert_ne; [done|congruence].
        + case_match; [done|apply union_subseteq_r].
        + intros title Ht. apply lookup_insert_is_Some'. auto. }
    destruct (IH s1) as (s' & a' & d' & Hrun & Ht & Hc & Hlen & Hh & Hcat & Hm).
    exists s', (a ++ a'), (d ++ d'). simpl. split; [done|].
    rewrite Ht, Hc, Ht1, Hc1, <-!app_assoc, !length_app.
    split; [done|]. split; [done|]. split; [lia|].
    split; [|split].
    + intros p Hp. rewrite Hh; [by apply Hh1|]. by rewrite Hh1.
    + by etrans.
    + auto.
Qed.

(** X5.  [loadFromFile] turns no line away: whatever the text of the file,
    it ends normally, appends one object per line of the file to the active
    or to the completed list, and leaves the objects, the list entries, the
    index entries and the categories that were there before in place. *)
Theorem load_appends (filename text : string) (fs : FileSystem) (s : State) :
  files fs !! filename = Some text →
  ∃ s' new_tasks new_completed,
    loadFromFile filename fs s = Ok s'
    ∧ tasks s' = tasks s ++ new_tasks
    ∧ completedTasks s' = completedTasks s ++ new_completed
    ∧ (length new_tasks + length new_completed = length (lines_of text))%nat
    ∧ (∀ p, is_Some (heap s !! p) → heap s' !! p = heap s !! p)
    ∧ categories s ⊆ categories s'
    ∧ (∀ title, is_Some (titleMap s !! title)
                → is_Some (titleMap s' !! title)).
Proof.
  intros Hfile. rewrite loadFromFile_actions. simpl. rewrite Hfile.
  destruct (load_actions_append (lines_of text) s)
    as (s' & a & d & Hrun & Ht & Hc & Hlen & Hrest).
  by exists s', a, d.
Qed.

Lemma load_appends_witness :
  ∃ s' new_tasks new_completed,
    loadFromFile "tasks.txt" sample_fs sample_state = Ok s'
    ∧ tasks s' = tasks sample_state ++ new_tasks
    ∧ completedTasks s' = completedTasks sample_state ++ new_completed
    ∧ (length new_tasks + length new_completed
       = length (lines_of "DONE:Report;10.10.2024;1;Work"))%nat
    ∧ (∀ p, is_Some (heap sample_state !! p)
            → heap s' !! p = heap sample_state !! p)
    ∧ categories sample_state ⊆ categories s'
    ∧ (∀ title, is_Some (titleMap sample_state !! title)
                → is_Some (titleMap s' !! title)).
Proof.
  apply (load_appends "tasks.txt" "DONE:Report;10.10.2024;1;Work" sample_fs
           sample_state).
  reflexivity.
Defined.

(** X6.  A file that does not exist, and a file without any character, load
    as nothing: [loadFromFile] ends normally and the store is as before. *)
Theorem load_nothing (filename : string) (fs : FileSystem) (s : State) :
  files fs !! filename = None ∨ files fs !! filename = Some EmptyString →
  loadFromFile filename fs s = Ok s.
Proof.
  intros [Hfile|Hfile]; unfold loadFromFile, ifstream; rewrite Hfile; done.
Qed.

Lemma load_nothing_witness :
  loadFromFile "no such file" sample_fs sample_state = Ok sample_state.
Proof.
  apply (load_nothing "no such file" sample_fs sample_state).
  left. reflexivity.
Defined.

(** ** Categories and their listings *)

Lemma length_zero_empty (s : string) :
  Nat.eqb (String.length s) 0 = true ↔ s = EmptyString.
Proof. destruct s; simpl; split; done. Qed.

Lemma categories_ok_empty : categories_ok empty_state.
Proof.
  split; simpl.
  - apply not_elem_of_empty.
  - by intros p t ?%elem_of_nil.
Qed.

Lemma categories_ok_act (a : action) (s s' : State) :
  wf s → categories_ok s → act a s = Ok s' → categories_ok s'.
Proof.
  intros Hwf [Hne Hact] Ha. pose proof (fresh_heap s) as Hfresh.
  destruct a as [o|o|title|title]; simpl in Ha.
  - rewrite add_eq in Ha. injection Ha as <-. split; simpl.
    + destruct (Nat.eqb _ 0) eqn:Hlen; [done|].
      intros [Heq%elem_of_singleton|?]%elem_of_union; [|done].
      rewrite <-Heq in Hlen. done.
    + intros p t [Hp| ->%list_elem_of_singleton]%elem_of_app Ht Hcat.
      * rewrite lookup_insert_ne in Ht.
        -- specialize (Hact p t Hp Ht Hcat).
           case_match; [done|]. by apply elem_of_union_r.
        -- intros <-. destruct (wf_tasks s Hwf _ Hp) as [? ?]. congruence.
      * rewrite lookup_insert_eq in Ht. injection Ht as <-.
        destruct (Nat.eqb _ 0) eqn:Hlen.
        -- by apply length_zero_empty in Hlen.
        -- apply elem_of_union_l. by apply elem_of_singleton.
  - rewrite add_done_eq in Ha. injection Ha as <-. split; simpl; [done|].
    intros p t Hp Ht Hcat. rewrite lookup_insert_ne in Ht; [eauto|].
    intros <-. destruct (wf_tasks s Hwf _ Hp) as [? ?]. congruence.
  - destruct (titleMap s !! title) as [q|] eqn:Hq.
    + destruct (wf_titleMap s Hwf _ _ Hq) as [(tq & Htq & _) _].
      rewrite (markCompleted_present _ _ _ _ Hq Htq) in Ha.
      injection Ha as <-. split; simpl; [done|].
      intros p t [Hpq Hp]%erase_remove_elem Ht Hcat.
      rewrite lookup_insert_ne in Ht by done. eauto.
    + rewrite markCompleted_absent in Ha by done. by injection Ha as <-.
  - destruct (titleMap s !! title) as [q|] eqn:Hq.
    + destruct (wf_titleMap s Hwf _ _ Hq) as [(tq & Htq & _) _].
      rewrite (deleteTask_present _ _ _ _ Hq Htq) in Ha.
      injection Ha as <-. split; simpl; [done|].
      intros p t [Hpq Hp]%erase_remove_elem Ht Hcat.
      rewrite lookup_delete_ne in Ht by done. eauto.
    + rewrite deleteTask_absent in Ha by done. by injection Ha as <-.
Qed.

Lemma categories_ok_run (cs : list command) (s : State) :
  wf s → categories_ok s → ∃ s', run cs s = Ok s' ∧ wf s' ∧ categories_ok s'.
Proof.
  intros Hwf Hok. apply (run_invariant categories_ok); [|done..].
  intros a s1 s2 Hwf1 Hok1 Hact. by eapply categories_ok_act.
Qed.

Lemma sample_state_categories_ok : categories_ok sample_state.
Proof.
  destruct (categories_ok_run sample_commands empty_state wf_empty
              categories_ok_empty) as (s & Hs & _ & Hok).
  rewrite sample_state_run in Hs. by injection Hs as <-.
Qed.

#[global] Instance string_le_total : Total string_le.
Proof. intros a b. apply String.leb_total. Qed.

#[global] Instance string_le_trans : Transitive string_le.
Proof.
  intros a b c. unfold string_le, String.leb.
  destruct (String.compare a b) eqn:Hab; [| |done].
  - by apply String.compare_eq_iff in Hab as ->.
  - destruct (String.compare b c) eqn:Hbc; [| |done].
    + apply String.compare_eq_iff in Hbc as ->. by rewrite Hab.
    + intros _ _.
      assert (String.compare a c = Lt) as ->; [|done].
      apply OrderedTypeEx.String_as_OT.cmp_lt.
      eapply OrderedTypeEx.String_as_OT.lt_trans;
        apply OrderedTypeEx.String_as_OT.cmp_lt; eassumption.
Qed.

Lemma set_in_order_elem (X : gset string) (c : string) :
  c ∈ set_in_order X ↔ c ∈ X.
Proof.
  unfold set_in_order. by rewrite merge_sort_Permutation, elem_of_elements.
Qed.

Lemma set_in_order_ascending (X : gset string) :
  StronglySorted (λ a b, string_le a b ∧ a ≠ b) (set_in_order X).
Proof.
  assert (NoDup (set_in_order X)) as Hnd.
  { unfold set_in_order. rewrite merge_sort_Permutation.
    apply NoDup_elements. }
  assert (StronglySorted string_le (set_in_order X)) as Hs
    by apply (StronglySorted_merge_sort _).
  induction Hs as [|a l Hs IH Ha]; [constructor|].
  apply NoDup_cons in Hnd as [Hal Hnd].
  constructor; [auto|].
  rewrite Forall_forall in Ha. apply Forall_forall. intros b Hb.
  split; [auto|]. intros ->. done.
Qed.

Lemma objects_elem_inv (s : State) (v : list ptr) (ts : list TaskBase.t)
  (t : TaskBase.t) :
  objects s v = Some ts → t ∈ ts → ∃ p, p ∈ v ∧ heap s !! p = Some t.
Proof.
  intros Hobj%mapM_Some_1 Ht.
  induction Hobj as [|q t' v ts Hq Hobj IH]; [by apply elem_of_nil in Ht|].
  apply elem_of_cons in Ht as [->|Ht].
  - exists q. split; [apply list_elem_of_here|done].
  - destruct (IH Ht) as (p & Hp & Hl). exists p.
    split; [by apply list_elem_of_further|done].
Qed.

(** X7.  After any commands from a store that meets [categories_ok], as the
    empty store does, [listAllCategories] writes its heading and then one
    line per known category, each category once, in strictly ascending
    order of bytes; there is no blank entry, and the category of every
    active task that has one is among them. *)
Theorem listAllCategories_lines (cs : list command) (s : State) :
  wf s → categories_ok s →
  ∃ s' cats,
    run cs s = Ok s'
    ∧ listAllCategories s'
      = ("Available categories:" +:+ endl)
          :: ((λ cat, " - " +:+ cat +:+ endl) <$> cats)
    ∧ StronglySorted (λ a b, string_le a b ∧ a ≠ b) cats
    ∧ (∀ c, c ∈ cats ↔ c ∈ categories s')
    ∧ (EmptyString ∉ cats)
    ∧ ∀ ts t, objects s' (tasks s') = Some ts → t ∈ ts →
        TaskBase.getCategory t ≠ EmptyString →
        TaskBase.getCategory t ∈ cats.
Proof.
  intros Hwf Hok.
  destruct (categories_ok_run cs s Hwf Hok) as (s' & Hrun & Hwf' & [Hne Hact]).
  exists s', (set_in_order (categories s')).
  split; [done|]. split; [done|].
  split; [apply set_in_order_ascending|].
  split; [apply set_in_order_elem|].
  split; [by rewrite set_in_order_elem|].
  intros ts t Hts Ht Hcat. rewrite set_in_order_elem.
  destruct (objects_elem_inv _ _ _ _ Hts Ht) as (p & Hp & Hl). eauto.
Qed.

Lemma listAllCategories_lines_witness :
  ∃ s' cats,
    run [Add (CategorizedTask "Walk" "2.2.2025" "Dog" false);
         Delete "Walk"] sample_state = Ok s'
    ∧ listAllCategories s'
      = ("Available categories:" +:+ endl)
          :: ((λ cat, " - " +:+ cat +:+ endl) <$> cats)
    ∧ StronglySorted (λ a b, string_le a b ∧ a ≠ b) cats
    ∧ (∀ c, c ∈ cats ↔ c ∈ categories s')
    ∧ (EmptyString ∉ cats)
    ∧ ∀ ts t, objects s' (tasks s') = Some ts → t ∈ ts →
        TaskBase.getCategory t ≠ EmptyString →
        TaskBase.getCategory t ∈ cats.
Proof.
  apply (listAllCategories_lines _ sample_state sample_state_wf
           sample_state_categories_ok).
Defined.

Lemma filterByCategory_objects (category : string) (s : State)
  (ts : list TaskBase.t) :
  objects s (tasks s) = Some ts →
  filterByCategory category s
  = Ok ((("Available categories to choose from:" +:+ endl)
           :: category_lines s)
        ++ [endl +:+ "Showing tasks for category: " +:+ category +:+ endl]
        ++ (TaskBase.display
              <$> filter (λ t, TaskBase.getCategory t = category) ts)).
Proof.
  intros Hobj%mapM_Some_1. unfold filterByCategory.
  rewrite app_assoc.
  generalize ((("Available categories to choose from:" +:+ endl)
                 :: category_lines s)
              ++ [endl +:+ "Showing tasks for category: " +:+ category
                  +:+ endl]).
  induction Hobj as [|q t v ts Hq Hobj IH]; intros out; simpl.
  - by rewrite app_nil_r.
  - rewrite Hq; simpl. rewrite IH, filter_cons.
    destruct (decide (TaskBase.getCategory t = category)) as [->|Hne].
    + rewrite String.eqb_refl. by rewrite <-app_assoc.
    + apply String.eqb_neq in Hne. by rewrite Hne.
Qed.

(** X8.  After its heading and the category lines, [filterByCategory]
    writes the lines of exactly the active tasks whose category equals the
    one asked for, byte for byte, in the order of the active list.  Asked
    for the empty category it shows the tasks that have none; asked for a
    non-empty category that is not known, it shows no task. *)
Theorem filterByCategory_selects (category : string) (s : State)
  (ts : list TaskBase.t) :
  categories_ok s → objects s (tasks s) = Some ts →
  filterByCategory category s
  = Ok ((("Available categories to choose from:" +:+ endl)
           :: category_lines s)
        ++ [endl +:+ "Showing tasks for category: " +:+ category +:+ endl]
        ++ (TaskBase.display
              <$> filter (λ t, TaskBase.getCategory t = category) ts))
  ∧ (category ≠ EmptyString → category ∉ categories s →
     filter (λ t, TaskBase.getCategory t = category) ts = [])
  ∧ (∀ ti d c, Task ti d c ∈ ts →
       Task ti d c ∈ filter (λ t, TaskBase.getCategory t = EmptyString) ts).
Proof.
  intros [Hne Hact] Hts. split; [by apply filterByCategory_objects|].
  split.
  - intros Hcat Hunknown.
    destruct (filter _ ts) as [|t l] eqn:Hf; [done|exfalso].
    assert (t ∈ filter (λ t, TaskBase.getCategory t = category) ts) as Ht
      by (rewrite Hf; apply list_elem_of_here).
    apply list_elem_of_filter in Ht as [Hc Ht].
    destruct (objects_elem_inv _ _ _ _ Hts Ht) as (p & Hp & Hl).
    apply Hunknown. rewrite <-Hc. apply (Hact p t); [done..|].
    by rewrite Hc.
  - intros ti d c Hin. by apply list_elem_of_filter.
Qed.

Lemma filterByCategory_selects_witness :
  filterByCategory "Work" sample_state
  = Ok ((("Available categories to choose from:" +:+ endl)
           :: category_lines sample_state)
        ++ [endl +:+ "Showing tasks for category: " +:+ "Work" +:+ endl]
        ++ (TaskBase.display
              <$> filter (λ t, TaskBase.getCategory t = "Work")
                    [Task "Buy milk" "01.01.2025" false;
                     CategorizedTask "Report" "10.10.2024" "Work" false;
                     CategorizedTask "Report" "11.10.2024" "Work" false]))
  ∧ ("Work" ≠ EmptyString → "Work" ∉ categories sample_state →
     filter (λ t, TaskBase.getCategory t = "Work")
       [Task "Buy milk" "01.01.2025" false;
        CategorizedTask "Report" "10.10.2024" "Work" false;
        CategorizedTask "Report" "11.10.2024" "Work" false] = [])
  ∧ (∀ ti d c,
       Task ti d c ∈ [Task "Buy milk" "01.01.2025" false;
                      CategorizedTask "Report" "10.10.2024" "Work" false;
                      CategorizedTask "Report" "11.10.2024" "Work" false] →
       Task ti d c
       ∈ filter (λ t, TaskBase.getCategory t = EmptyString)
           [Task "Buy milk" "01.01.2025" false;
            CategorizedTask "Report" "10.10.2024" "Work" false;
            CategorizedTask "Report" "11.10.2024" "Work" false]).
Proof.
  apply (filterByCategory_selects "Work" sample_state _
           sample_state_categories_ok).
  reflexivity.
Defined.

(** ** The sorted listing in general *)

Lemma stoi_cases (k : string) :
  (∃ v, stoi k = Ok v) ∨ (∃ e, stoi k = Throws e).
Proof.
  unfold stoi. destruct (strtol_sign (skip_spaces k)) as [neg s2].
  destruct (leading_digits s2); [eauto|]. case_match; eauto.
Qed.

Lemma dateToInt_cases (d : string) :
  (∃ v, dateToInt d = Ok v) ∨ (∃ e, dateToInt d = Throws e).
Proof. rewrite dateToInt_date_text. apply stoi_cases. Qed.

Lemma key_of_cases (s : State) (p : ptr) :
  is_Some (heap s !! p) →
  (∃ k, key_of s p = Ok k) ∨ (∃ e, key_of s p = Throws e).
Proof.
  intros [t Ht]. unfold key_of. rewrite Ht. simpl. apply dateToInt_cases.
Qed.

Lemma deadline_less_keys (s : State) (a b : ptr) (ka kb : Z) :
  key_of s a = Ok ka → key_of s b = Ok kb →
  deadline_less s a b = Ok (ka <? kb).
Proof.
  unfold key_of, deadline_less.
  destruct (heap s !! a) as [ta|]; [simpl|done].
  destruct (heap s !! b) as [tb|]; [simpl|done].
  by intros -> ->.
Qed.

Lemma deadline_less_throws (s : State) (a b : ptr) :
  is_Some (heap s !! a) → is_Some (heap s !! b) →
  (∃ e, key_of s a = Throws e) ∨ (∃ e, key_of s b = Throws e) →
  ∃ e, deadline_less s a b = Throws e.
Proof.
  intros [ta Ha] [tb Hb]. unfold key_of, deadline_less.
  rewrite Ha, Hb. simpl.
  destruct (dateToInt_cases (TaskBase.getDeadline ta)) as [[ka ->]|[e ->]];
    simpl; [|eauto].
  intros [[e ?]|[e ->]]; [done|]. simpl. eauto.
Qed.

Lemma key_le_trans (s : State) : Transitive (key_le s).
Proof.
  intros a b c (ka & kb & Ha & Hb & Hab) (kb' & kc & Hb' & Hc & Hbc).
  exists ka, kc. split; [done|]. split; [done|].
  assert (kb' = kb) by congruence. lia.
Qed.

Lemma sort_insert_sorted (s : State) (x : ptr) (l : list ptr) :
  (∃ k, key_of s x = Ok k) →
  Forall (λ q, ∃ k, key_of s q = Ok k) l →
  StronglySorted (key_le s) l →
  ∃ l', sort_insert (deadline_less s) x l = Ok l'
        ∧ l' ≡ₚ x :: l ∧ StronglySorted (key_le s) l'.
Proof.
  intros [kx Hx] Hgood Hsorted.
  induction Hsorted as [|y r Hr IH Hy]; simpl.
  - exists [x]. split; [done|]. split; [done|]. repeat constructor.
  - apply Forall_cons in Hgood as [[ky Hky] Hgood].
    rewrite (deadline_less_keys s y x ky kx) by done. simpl.
    destruct (ky <? kx) eqn:Hlt.
    + destruct (IH Hgood) as (r' & -> & Hperm & Hsorted'). simpl.
      exists (y :: r'). split; [done|]. split.
      * rewrite Hperm. apply Permutation_swap.
      * constructor; [done|]. rewrite Hperm. constructor; [|done].
        exists ky, kx. split; [done|]. split; [done|]. lia.
    + exists (x :: y :: r). split; [done|]. split; [done|].
      assert (key_le s x y) as Hxy.
      { exists kx, ky. split; [done|]. split; [done|]. lia. }
      constructor; [by constructor|]. constructor; [done|].
      eapply Forall_impl; [exact Hy|]. intros z Hz. simpl in Hz.
      by apply (key_le_trans s x y z).
Qed.

Lemma sort_loop_sorted (s : State) (l acc : list ptr) :
  Forall (λ q, ∃ k, key_of s q = Ok k) (acc ++ l) →
  StronglySorted (key_le s) acc →
  ∃ l', for_each (sort_insert (deadline_less s)) l acc = Ok l'
        ∧ l' ≡ₚ acc ++ l ∧ StronglySorted (key_le s) l'.
Proof.
  revert acc. induction l as [|x l IH]; intros acc Hgood Hsorted; simpl.
  - exists acc. by rewrite app_nil_r.
  - apply Forall_app in Hgood as Hparts. destruct Hparts as [Hacc Hxl].
    apply Forall_cons in Hxl as [Hx Hl].
    destruct (sort_insert_sorted s x acc Hx Hacc Hsorted)
      as (acc' & -> & Hperm & Hsorted'). simpl.
    destruct (IH acc') as (l' & Hrun & Hperm' & Hs'); [|done|].
    { rewrite Hperm. apply Forall_app. split; [|done].
      by apply Forall_cons. }
    exists l'. split; [done|]. split; [|done].
    rewrite Hperm', Hperm. simpl. by rewrite <-Permutation_middle.
Qed.

Lemma objects_Permutation (s : State) (l l' : list ptr)
  (ts : list TaskBase.t) :
  l ≡ₚ l' → objects s l = Some ts →
  ∃ ts', objects s l' = Some ts' ∧ ts ≡ₚ ts'.
Proof.
  intros Hperm. revert ts.
  induction Hperm as [|p l l' Hperm IH|p q l|l l' l'' H1 IH1 H2 IH2];
    intros ts Hts.
  - by exists ts.
  - apply objects_cons in Hts as (t & ts0 & -> & Hp & Hts).
    destruct (IH _ Hts) as (ts' & Hts' & Hp').
    exists (t :: ts'). split; [|by constructor].
    apply objects_cons. eauto.
  - apply objects_cons in Hts as (t & ts0 & -> & Hq & Hts).
    apply objects_cons in Hts as (u & ts1 & -> & Hp & Hts).
    exists (u :: t :: ts1). split; [|apply Permutation_swap].
    apply objects_cons. exists u, (t :: ts1). split; [done|].
    split; [done|]. apply objects_cons. eauto.
  - destruct (IH1 _ Hts) as (ts' & Hts' & Hp1).
    destruct (IH2 _ Hts') as (ts'' & Hts'' & Hp2).
    exists ts''. split; [done|]. by etrans.
Qed.

Lemma StronglySorted_lookup {A : Type} (R : relation A) (l : list A)
  (i j : nat) (a b : A) :
  StronglySorted R l → (i < j)%nat → l !! i = Some a → l !! j = Some b →
  R a b.
Proof.
  intros Hs. revert i j.
  induction Hs as [|x l Hs IH Hx]; intros i j Hij Hi Hj; [done|].
  destruct j as [|j]; [lia|]. simpl in Hj.
  destruct i as [|i]; simpl in Hi.
  - injection Hi as ->. rewrite Forall_forall in Hx.
    apply Hx. by eapply list_elem_of_lookup_2.
  - apply (IH i j); [lia|done..].
Qed.

(** X9.  When the deadline of every active task converts, the sorted
    listing ends normally and shows every active task once, ordered so
    that no task has a key below the key of a task shown before it. *)
Theorem sorted_listing_sorted (s : State) (ts : list TaskBase.t) :
  objects s (tasks s) = Some ts →
  Forall (λ t, ∃ k, dateToInt (TaskBase.getDeadline t) = Ok k) ts →
  ∃ ts', viewTasks true s = Ok (TaskBase.display <$> ts')
         ∧ ts' ≡ₚ ts ∧ sorted_by_deadline ts'.
Proof.
  intros Hts Hgood.
  assert (Forall (λ q, ∃ k, key_of s q = Ok k) ([] ++ tasks s)) as Hkeys.
  { simpl. apply mapM_Some_1 in Hts.
    induction Hts as [|p t v ts' Hp Hts IH]; [constructor|].
    apply Forall_cons in Hgood as [[k Hk] Hgood].
    constructor; [|auto]. exists k. unfold key_of. by rewrite Hp. }
  destruct (sort_loop_sorted s (tasks s) [] Hkeys)
    as (l' & Hsort & Hperm & Hsorted); [constructor|].
  simpl in Hperm.
  destruct (objects_Permutation s (tasks s) l' ts) as (ts' & Hts' & Hpts);
    [done|done|].
  exists ts'. split; [|split; [done|]].
  - unfold viewTasks, sort. rewrite Hsort. simpl.
    by apply display_all_objects.
  - intros i j a b Hij Ha Hb.
    apply mapM_Some_1 in Hts'.
    destruct (Forall2_lookup_r _ _ _ _ _ Hts' Ha) as (pa & Hpa & Hha).
    destruct (Forall2_lookup_r _ _ _ _ _ Hts' Hb) as (pb & Hpb & Hhb).
    destruct (StronglySorted_lookup _ _ _ _ _ _ Hsorted Hij Hpa Hpb)
      as (ka & kb & Hka & Hkb & Hle).
    unfold key_of in Hka, Hkb. rewrite Hha in Hka. rewrite Hhb in Hkb.
    exists ka, kb. split; [done|]. split; [done|]. lia.
Qed.

Lemma sorted_listing_sorted_witness :
  ∃ ts', viewTasks true sample_state = Ok (TaskBase.display <$> ts')
         ∧ ts' ≡ₚ [Task "Buy milk" "01.01.2025" false;
                   CategorizedTask "Report" "10.10.2024" "Work" false;
                   CategorizedTask "Report" "11.10.2024" "Work" false]
         ∧ sorted_by_deadline ts'.
Proof.
  apply (sorted_listing_sorted sample_state).
  - reflexivity.
  - repeat constructor; eexists; vm_compute; reflexivity.
Defined.

Lemma sort_loop_throws (s : State) (l acc : list ptr) :
  acc ≠ [] →
  Forall (λ q, ∃ k, key_of s q = Ok k) acc →
  StronglySorted (key_le s) acc →
  Forall (λ q, is_Some (heap s !! q)) l →
  Exists (λ q, ∃ e, key_of s q = Throws e) l →
  ∃ e, for_each (sort_insert (deadline_less s)) l acc = Throws e.
Proof.
  revert acc. induction l as [|x l IH];
    intros acc Hne Hgood Hsorted Hlive Hbad; [by apply Exists_nil in Hbad|].
  apply Forall_cons in Hlive as [Hx Hlive]. cbn [for_each].
  destruct (key_of_cases s x Hx) as [Hkx|Hkx].
  - destruct (sort_insert_sorted s x acc Hkx Hgood Hsorted)
      as (acc' & -> & Hperm & Hsorted'). simpl.
    apply IH; [| |done|done|].
    + intros ->. by apply Permutation_nil_cons in Hperm.
    + rewrite Hperm. by apply Forall_cons.
    + apply Exists_cons in Hbad as [[e He]|?]; [|done].
      destruct Hkx as [k Hk]. congruence.
  - destruct acc as [|y r]; [done|]. simpl.
    apply Forall_cons in Hgood as [[ky Hky] _].
    assert (is_Some (heap s !! y)) as Hy.
    { unfold key_of in Hky. by destruct (heap s !! y). }
    destruct (deadline_less_throws s y x Hy Hx) as [e ->]; [by right|].
    simpl. eauto.
Qed.

(** X10.  A deadline that does not convert makes the sorted listing throw
    as soon as there are two active tasks or more; with one task or none
    nothing is compared and the sorted listing is the plain one.  The
    plain listing never throws. *)
Theorem sorted_listing_throws (s : State) (ts : list TaskBase.t) :
  objects s (tasks s) = Some ts →
  viewTasks false s = Ok (TaskBase.display <$> ts)
  ∧ ((length ts ≤ 1)%nat → viewTasks true s = viewTasks false s)
  ∧ ((2 ≤ length ts)%nat →
     Exists (λ t, ∃ e, dateToInt (TaskBase.getDeadline t) = Throws e) ts →
     ∃ e, viewTasks true s = Throws e).
Proof.
  intros Hts. split; [by apply display_all_objects|].
  pose proof (length_mapM _ _ _ Hts) as Hlen.
  apply mapM_Some_1 in Hts. split.
  - intros Hshort. unfold viewTasks, sort.
    destruct (tasks s) as [|p [|q v]]; simpl in *; [done|done|lia].
  - intros Hlong Hbad.
    assert (Forall (λ q, is_Some (heap s !! q)) (tasks s)) as Hlive.
    { eapply Forall2_Forall_l; [exact Hts|].
      apply Forall_forall. intros t _ p Hp. by exists t. }
    assert (Exists (λ q, ∃ e, key_of s q = Throws e) (tasks s)) as Hbadp.
    { clear Hlive Hlen Hlong.
      induction Hts as [|p t v ts' Hp Hts IH]; [by apply Exists_nil in Hbad|].
      apply Exists_cons in Hbad as [[e He]|Hbad].
      - apply Exists_cons_hd. exists e. unfold key_of. by rewrite Hp.
      - apply Exists_cons_tl. auto. }
    enough (∃ e, sort (deadline_less s) (tasks s) = Throws e) as [e He].
    { exists e. unfold viewTasks. by rewrite He. }
    unfold sort.
    destruct (tasks s) as [|x0 [|x1 rest]]; simpl in Hlen; [lia|lia|].
    apply Forall_cons in Hlive as [Hx0 Hlive].
    cbn [for_each sort_insert]. simpl.
    destruct (key_of_cases s x0 Hx0) as [Hk0|Hk0].
    + apply (sort_loop_throws s (x1 :: rest) [x0]); [done| | |done|].
      * by constructor.
      * repeat constructor.
      * apply Exists_cons in Hbadp as [[e He]|?]; [|done].
        destruct Hk0 as [k Hk]. congruence.
    + apply Forall_cons in Hlive as [Hx1 Hlive].
      cbn [for_each sort_insert].
      destruct (deadline_less_throws s x0 x1 Hx0 Hx1) as [e ->]; [by left|].
      simpl. eauto.
Qed.

Lemma sorted_listing_throws_witness :
  viewTasks false undated_state
  = Ok (TaskBase.display <$> [Task "Call back" "soon" false;
                              Task "Buy milk" "01.01.2025" false])
  ∧ ((length [Task "Call back" "soon" false;
              Task "Buy milk" "01.01.2025" false] ≤ 1)%nat
     → viewTasks true undated_state = viewTasks false undated_state)
  ∧ ((2 ≤ length [Task "Call back" "soon" false;
                  Task "Buy milk" "01.01.2025" false])%nat →
     Exists (λ t, ∃ e, dateToInt (TaskBase.getDeadline t) = Throws e)
       [Task "Call back" "soon" false; Task "Buy milk" "01.01.2025" false] →
     ∃ e, viewTasks true undated_state = Throws e).
Proof. apply (sorted_listing_throws undated_state). reflexivity. Defined.

Example undated_state_listing :
  viewTasks true undated_state = Throws invalid_argument.
Proof. reflexivity. Qed.

(** ** The key of a well-formed date *)

Lemma string_forall_app (P : ascii → bool) (a b : string) :
  string_forall P (a +:+ b) = string_forall P a && string_forall P b.
Proof.
  induction a as [|x a IH]; [done|].
  rewrite append_cons. simpl. by rewrite IH, andb_assoc.
Qed.

Lemma length_append (a b : string) :
  String.length (a +:+ b) = (String.length a + String.length b)%nat.
Proof.
  induction a as [|x a IH]; [done|]. rewrite append_cons. simpl. by rewrite IH.
Qed.

Lemma digits_free_of (c : ascii) (s : string) :
  isdigit c = false → string_forall isdigit s = true → free_of c s = true.
Proof.
  intros Hc. unfold free_of. induction s as [|x s IH]; simpl; [done|].
  intros [Hx Hs]%andb_prop. rewrite IH by done.
  destruct (Ascii.eqb_spec x c) as [->|]; [congruence|done].
Qed.

Lemma list_of_string_app (a b : string) :
  String.list_ascii_of_string (a +:+ b)
  = String.list_ascii_of_string a ++ String.list_ascii_of_string b.
Proof.
  induction a as [|x a IH]; [done|]. rewrite append_cons. simpl. by f_equal.
Qed.

Lemma length_list_of_string (s : string) :
  length (String.list_ascii_of_string s) = String.length s.
Proof. induction s as [|x s IH]; simpl; [done|by f_equal]. Qed.

Lemma digits_fold_shift (ds : list ascii) (acc : Z) :
  fold_left (λ a c, 10 * a + digit_value c) ds acc
  = acc * 10 ^ Z.of_nat (length ds)
    + fold_left (λ a c, 10 * a + digit_value c) ds 0.
Proof.
  revert acc. induction ds as [|c ds IH]; intros acc; simpl fold_left.
  - simpl. lia.
  - rewrite IH, (IH (10 * 0 + digit_value c)).
    rewrite length_cons, Nat2Z.inj_succ, Z.pow_succ_r by lia. lia.
Qed.

Lemma number_of_app (a b : string) :
  number_of (a +:+ b)
  = number_of a * 10 ^ Z.of_nat (String.length b) + number_of b.
Proof.
  unfold number_of, digits_value.
  rewrite list_of_string_app, fold_left_app, digits_fold_shift.
  by rewrite length_list_of_string.
Qed.

Lemma number_of_bound (s : string) :
  string_forall isdigit s = true →
  0 ≤ number_of s < 10 ^ Z.of_nat (String.length s).
Proof.
  intros Hs. unfold number_of, digits_value.
  rewrite <-length_list_of_string.
  pose proof (digits_value_bound (String.list_ascii_of_string s) 0) as Hb.
  rewrite Z.mul_1_l in Hb. apply Hb; [|lia].
  clear Hb. induction s as [|c s IH]; simpl in *; [constructor|].
  apply andb_prop in Hs as [Hc Hs]. constructor; auto.
Qed.

Lemma leading_digits_all (s : string) :
  string_forall isdigit s = true →
  leading_digits s = String.list_ascii_of_string s.
Proof.
  induction s as [|c s IH]; simpl; [done|].
  intros [-> Hs]%andb_prop. by rewrite IH.
Qed.

(** [std::stoi] on a run of one to nine digits. *)
Lemma stoi_digits (k : string) :
  string_forall isdigit k = true →
  (1 ≤ String.length k)%nat → (String.length k ≤ 9)%nat →
  stoi k = Ok (number_of k).
Proof.
  intros Hk Hlo Hhi. pose proof (number_of_bound k Hk) as Hb.
  destruct k as [|c r]; [simpl in Hlo; lia|].
  pose proof Hk as Hk'. simpl in Hk'. apply andb_prop in Hk' as [Hc Hr].
  unfold stoi. simpl skip_spaces. rewrite (isdigit_not_space c Hc).
  rewrite strtol_sign_digit by done.
  rewrite (leading_digits_all _ Hk).
  assert (10 ^ Z.of_nat (String.length (String c r)) ≤ 10 ^ 9)
    by (apply Z.pow_le_mono_r; lia).
  assert ((INT_MIN <=? number_of (String c r))
          && (number_of (String c r) <=? INT_MAX) = true) as Hrange.
  { unfold INT_MIN, INT_MAX. apply andb_true_intro. split; lia. }
  unfold number_of in *.
  destruct (String.list_ascii_of_string (String c r)) eqn:Hl; [done|].
  cbv zeta. by rewrite Hrange.
Qed.

Lemma pad2_digits (s : string) :
  digits_between 1 2 s →
  string_forall isdigit (pad2 s) = true
  ∧ String.length (pad2 s) = 2%nat
  ∧ number_of (pad2 s) = number_of s
  ∧ 0 ≤ number_of s < 100.
Proof.
  intros (Hs & Hlo & Hhi). pose proof (number_of_bound s Hs) as Hb.
  unfold pad2. destruct s as [|a [|b [|c r]]]; simpl in *; try lia.
  - split; [by rewrite Hs|]. split; [done|].
    unfold number_of, digits_value in *. simpl in *.
    change (digit_value "0") with 0. split; lia.
  - split; [done|]. split; [done|]. split; [done|].
    change (Z.of_nat 2) with 2 in Hb. lia.
Qed.

Lemma dateToInt_fields (d m y : string) :
  digits_between 1 2 d → digits_between 1 2 m → digits_between 1 5 y →
  dateToInt (d +:+ "." +:+ m +:+ "." +:+ y)
  = Ok (number_of y * 10000 + number_of m * 100 + number_of d).
Proof.
  intros Hd Hm Hy.
  destruct (pad2_digits d Hd) as (Hpd & Hld & Hnd & _).
  destruct (pad2_digits m Hm) as (Hpm & Hlm & Hnm & _).
  destruct Hd as (Hd & _). destruct Hm as (Hm & _).
  destruct Hy as (Hy & Hylo & Hyhi).
  unfold dateToInt.
  change (d +:+ "." +:+ m +:+ "." +:+ y)
    with (d +:+ String "." (m +:+ String "." y)).
  rewrite !getline_found by (by apply digits_free_of).
  rewrite getline_last by (by apply digits_free_of).
  fold (pad2 d). fold (pad2 m).
  rewrite stoi_digits.
  - f_equal. rewrite !number_of_app, !length_append, Hld, Hlm, Hnd, Hnm.
    change (Z.of_nat (2 + 2)) with 4. change (Z.of_nat 2) with 2. lia.
  - by rewrite !string_forall_app, Hy, Hpm, Hpd.
  - rewrite !length_append. lia.
  - rewrite !length_append. lia.
Qed.

(** X11.  For a deadline written as a day and a month of one or two digits
    and a year of one to five digits, separated by dots, the key is
    year*10000 + month*100 + day; and the keys of two such deadlines
    compare as the dates do: by year, then by month, then by day. *)
Theorem dateToInt_yyyymmdd (d1 m1 y1 d2 m2 y2 : string) :
  digits_between 1 2 d1 → digits_between 1 2 m1 → digits_between 1 5 y1 →
  digits_between 1 2 d2 → digits_between 1 2 m2 → digits_between 1 5 y2 →
  ∃ k1 k2,
    dateToInt (d1 +:+ "." +:+ m1 +:+ "." +:+ y1) = Ok k1
    ∧ dateToInt (d2 +:+ "." +:+ m2 +:+ "." +:+ y2) = Ok k2
    ∧ k1 = number_of y1 * 10000 + number_of m1 * 100 + number_of d1
    ∧ k2 = number_of y2 * 10000 + number_of m2 * 100 + number_of d2
    ∧ (k1 < k2 ↔
       number_of y1 < number_of y2
       ∨ (number_of y1 = number_of y2
          ∧ (number_of m1 < number_of m2
             ∨ (number_of m1 = number_of m2
                ∧ number_of d1 < number_of d2)))).
Proof.
  intros Hd1 Hm1 Hy1 Hd2 Hm2 Hy2.
  destruct (pad2_digits d1 Hd1) as (_ & _ & _ & Hbd1).
  destruct (pad2_digits m1 Hm1) as (_ & _ & _ & Hbm1).
  destruct (pad2_digits d2 Hd2) as (_ & _ & _ & Hbd2).
  destruct (pad2_digits m2 Hm2) as (_ & _ & _ & Hbm2).
  eexists _, _. split; [by apply dateToInt_fields|].
  split; [by apply dateToInt_fields|]. split; [done|]. split; [done|]. lia.
Qed.

Lemma dateToInt_yyyymmdd_witness :
  ∃ k1 k2,
    dateToInt ("1" +:+ "." +:+ "1" +:+ "." +:+ "2024") = Ok k1
    ∧ dateToInt ("15" +:+ "." +:+ "03" +:+ "." +:+ "2023") = Ok k2
    ∧ k1 = number_of "2024" * 10000 + number_of "1" * 100 + number_of "1"
    ∧ k2 = number_of "2023" * 10000 + number_of "03" * 100 + number_of "15"
    ∧ (k1 < k2 ↔
       number_of "2024" < number_of "2023"
       ∨ (number_of "2024" = number_of "2023"
          ∧ (number_of "1" < number_of "03"
             ∨ (number_of "1" = number_of "03"
                ∧ number_of "1" < number_of "15")))).
Proof.
  apply (dateToInt_yyyymmdd "1" "1" "2024" "15" "03" "2023");
    (split; [reflexivity|split; simpl; lia]).
Defined.

(** ** Saving over a file *)

(** X12.  On a path that can be written, [saveToFile] ends normally; the
    file then holds the lines of the store and nothing of what it held
    before, every other file and the set of unwritable paths are as they
    were, and saving again changes nothing. *)
Theorem saveToFile_overwrites (filename : string) (s : State)
  (fs : FileSystem) (aos dos : list TaskBase.t) :
  filename ∉ unwritable fs →
  objects s (tasks s) = Some aos →
  objects s (completedTasks s) = Some dos →
  ∃ fs', saveToFile filename s fs = Ok fs'
    ∧ files fs' !! filename
      = Some (unlines ((TaskBase.toFileString <$> aos)
                       ++ ((λ o, "DONE:" +:+ TaskBase.toFileString o)
                             <$> dos)))
    ∧ (∀ other, other ≠ filename → files fs' !! other = files fs !! other)
    ∧ unwritable fs' = unwritable fs
    ∧ saveToFile filename s fs' = Ok fs'.
Proof.
  intros Hw Ha Hd. eexists. split; [by apply saveToFile_text|]. simpl.
  split; [apply lookup_insert_eq|].
  split; [intros other Hne; by apply lookup_insert_ne|].
  split; [done|].
  rewrite (saveToFile_text _ _ _ aos dos) by done. simpl.
  by rewrite insert_insert_eq.
Qed.

Lemma saveToFile_overwrites_witness :
  ∃ fs', saveToFile "tasks.txt" sample_state sample_fs = Ok fs'
    ∧ files fs' !! "tasks.txt"
      = Some (unlines
                ((TaskBase.toFileString
                    <$> [Task "Buy milk" "01.01.2025" false;
                         CategorizedTask "Report" "10.10.2024" "Work" false;
                         CategorizedTask "Report" "11.10.2024" "Work" false])
                 ++ ((λ o, "DONE:" +:+ TaskBase.toFileString o)
                       <$> [CategorizedTask "Call" "1.1.2024" "Home" true])))
    ∧ (∀ other, other ≠ "tasks.txt"
                → files fs' !! other = files sample_fs !! other)
    ∧ unwritable fs' = unwritable sample_fs
    ∧ saveToFile "tasks.txt" sample_state fs' = Ok fs'.
Proof.
  apply (saveToFile_overwrites "tasks.txt" sample_state sample_fs).
  - vm_compute. discriminate.
  - reflexivity.
  - reflexivity.
Defined.

(** ** The display line *)

Lemma length_spaces (n : nat) : String.length (spaces n) = n.
Proof. induction n as [|n IH]; simpl; [done|by f_equal]. Qed.

Lemma length_setw_left (w : nat) (s : string) :
  (String.length s ≤ w)%nat → String.length (setw_left w s) = w.
Proof.
  intros Hs. unfold setw_left. rewrite length_append, length_spaces. lia.
Qed.

Lemma occurs_setw_left (w : nat) (s pre post : string) :
  occurs s (pre +:+ setw_left w s +:+ post).
Proof.
  exists pre, (spaces (w - String.length s) +:+ post).
  unfold setw_left. by rewrite !append_assoc.
Qed.

(** X13.  [display] never cuts a field: the title and the deadline stand in
    the line in full.  The line begins with [[X] ] exactly when the task
    is completed.  When the title has at most 20 characters and the
    deadline at most 12, the line of a [Task] has 45 characters, so the
    columns of a listing are aligned, and the line of a [CategorizedTask]
    has 58 more than its category. *)
Theorem display_layout (o : TaskBase.t) :
  occurs (TaskBase.getTitle o) (TaskBase.display o)
  ∧ occurs (TaskBase.getDeadline o) (TaskBase.display o)
  ∧ String.prefix "[X] " (TaskBase.display o) = TaskBase.isCompleted o
  ∧ String.prefix "[ ] " (TaskBase.display o)
    = negb (TaskBase.isCompleted o)
  ∧ ((String.length (TaskBase.getTitle o) ≤ 20)%nat →
     (String.length (TaskBase.getDeadline o) ≤ 12)%nat →
     String.length (TaskBase.display o)
     = match o with
       | Task _ _ _ => 45%nat
       | CategorizedTask _ _ cat _ => (58 + String.length cat)%nat
       end).
Proof.
  split; [|split; [|split; [|split]]].
  - destruct o as [ti d c|ti d cat c]; apply occurs_setw_left.
  - destruct o as [ti d c|ti d cat c]; simpl.
    + rewrite <-(append_assoc _ (setw_left 20 ti)),
        <-(append_assoc _ " | Due: ").
      apply occurs_setw_left.
    + rewrite <-(append_assoc _ (setw_left 20 ti)),
        <-(append_assoc _ " | Due: ").
      apply occurs_setw_left.
  - destruct o as [ti d [] |ti d cat []]; simpl;
      first [reflexivity | apply prefix_occurs; by eexists].
  - destruct o as [ti d [] |ti d cat []]; simpl;
      first [reflexivity | apply prefix_occurs; by eexists].
  - intros Hti Hd.
    destruct o as [ti d c|ti d cat c]; simpl in *;
      rewrite !length_append, !length_setw_left by done;
      destruct c; simpl; lia.
Qed.

(** ** [operator+] *)

(** X14.  The sum of two tasks is an open task without category that keeps
    the deadline of the left operand; summing is associative, so the order
    in which three tasks are combined does not show in the result or in its
    printed form. *)
Theorem Task_plus_assoc (a b c : TaskBase.t) :
  Task_plus (Task_plus a b) c = Task_plus a (Task_plus b c)
  ∧ Task_print (Task_plus (Task_plus a b) c)
    = Task_print (Task_plus a (Task_plus b c))
  ∧ TaskBase.isCompleted (Task_plus a b) = false
  ∧ TaskBase.getCategory (Task_plus a b) = EmptyString
  ∧ TaskBase.getDeadline (Task_plus a b) = TaskBase.getDeadline a.
Proof.
  assert (Task_plus (Task_plus a b) c = Task_plus a (Task_plus b c)) as Heq.
  { unfold Task_plus. simpl. by rewrite !append_assoc. }
  split; [done|]. split; [by rewrite Heq|]. done.
Qed.

(** ** The index points to active tasks *)

(** X15.  After any commands from a store that is well formed and in which
    every live object is held once, as the empty store is, each entry of
    [titleMap] points to a live object that is in the active list, is not
    in the completed list and bears the title of the entry. *)
Theorem titleMap_points_to_active (cs : list command) (s : State) :
  wf s → owned s →
  ∃ s', run cs s = Ok s'
    ∧ ∀ title p, titleMap s' !! title = Some p →
        p ∈ tasks s' ∧ (p ∉ completedTasks s')
        ∧ ∃ t, heap s' !! p = Some t ∧ TaskBase.getTitle t = title.
Proof.
  intros Hwf Hown.
  destruct (owned_run cs s Hwf Hown) as (s' & Hrun & Hwf' & Hown').
  exists s'. split; [done|]. intros title p Hp.
  split; [by eapply owned_indexed_active|].
  by destruct (wf_titleMap s' Hwf' _ _ Hp).
Qed.

Lemma titleMap_points_to_active_witness :
  ∃ s', run [Complete "Report"; Add (Task "Report" "3.3.2025" false)]
          sample_state = Ok s'
    ∧ ∀ title p, titleMap s' !! title = Some p →
        p ∈ tasks s' ∧ (p ∉ completedTasks s')
        ∧ ∃ t, heap s' !! p = Some t ∧ TaskBase.getTitle t = title.
Proof.
  apply (titleMap_points_to_active _ sample_state sample_state_wf
           sample_state_owned).
Defined.

(** ** The flag of completed tasks *)

Lemma completed_flagged_act (a : action) (s s' : State) :
  (∀ o, a = AAddDone o → TaskBase.isCompleted o = true) →
  wf s → completed_flagged s → act a s = Ok s' → completed_flagged s'.
Proof.
  intros Ha Hwf Hflag Hact.
  destruct (act_cases a s s' Hwf Hact)
    as [(o & Ho & Hfresh & Hheap & Hadd & Hdone)
       |[(title & _ & _ & ->)
        |(title & q & tq & Hq & Hmq & Htq & Hnc & _ & _ & Hc & Hd)]];
    [|done|]; intros p t Hp Ht.
  - rewrite Hheap in Ht. destruct Ho as [->| ->].
    + destruct (Hadd eq_refl) as (_ & Hcs & _). rewrite Hcs in Hp.
      rewrite lookup_insert_ne in Ht; [by eapply Hflag|].
      intros <-. destruct (wf_completed s Hwf _ Hp) as [? ?]. congruence.
    + destruct (Hdone eq_refl) as (_ & Hcs & _). rewrite Hcs in Hp.
      apply elem_of_app in Hp as [Hp| ->%list_elem_of_singleton].
      * rewrite lookup_insert_ne in Ht; [by eapply Hflag|].
        intros <-. destruct (wf_completed s Hwf _ Hp) as [? ?]. congruence.
      * rewrite lookup_insert_eq in Ht. injection Ht as <-. by apply Ha.
  - destruct Hq as [->| ->].
    + destruct (Hc eq_refl) as (Hh & Hcs). rewrite Hcs in Hp. rewrite Hh in Ht.
      apply elem_of_app in Hp as [Hp| ->%list_elem_of_singleton].
      * rewrite lookup_insert_ne in Ht; [by eapply Hflag|].
        intros <-. done.
      * rewrite lookup_insert_eq in Ht. injection Ht as <-. by destruct tq.
    + destruct (Hd eq_refl) as (Hh & Hcs). rewrite Hcs in Hp. rewrite Hh in Ht.
      rewrite lookup_delete_ne in Ht; [by eapply Hflag|].
      intros <-. done.
Qed.

(** X16.  As long as no loaded file has a [DONE:] line whose flag is not
    1, every object of the completed list carries the completed flag, so
    every line of the completed listing begins with [[X] ]. *)
Theorem completed_stay_flagged (cs : list command) (s : State) :
  wf s → completed_flagged s →
  Forall (λ c, ∀ o, AAddDone o ∈ actions_of c
                    → TaskBase.isCompleted o = true) cs →
  ∃ s' ds, run cs s = Ok s'
    ∧ objects s' (completedTasks s') = Some ds
    ∧ Forall (λ t, TaskBase.isCompleted t = true) ds
    ∧ viewCompleted s' = Ok (TaskBase.display <$> ds)
    ∧ Forall (λ line, String.prefix "[X] " line = true)
        (TaskBase.display <$> ds).
Proof.
  intros Hwf Hflag Hcs.
  assert (∃ s', run cs s = Ok s' ∧ wf s' ∧ completed_flagged s')
    as (s' & Hrun & Hwf' & Hflag').
  { rewrite run_actions.
    apply (actions_invariant
             (λ a, ∀ o, a = AAddDone o → TaskBase.isCompleted o = true)
             completed_flagged); [| |done..].
    - intros a s1 s2 Ha Hwf1 Hf1 Hact. by eapply completed_flagged_act.
    - apply Forall_forall. intros a [c [Ha Hc]]%list_elem_of_bind o ->.
      rewrite Forall_forall in Hcs. by apply (Hcs c Hc). }
  destruct (objects_wf s' (completedTasks s') (wf_completed s' Hwf'))
    as [ds Hds].
  assert (Forall (λ t, TaskBase.isCompleted t = true) ds) as Hall.
  { apply Forall_forall. intros t Ht.
    destruct (objects_elem_inv _ _ _ _ Hds Ht) as (p & Hp & Hl).
    by apply (Hflag' p t). }
  exists s', ds. split; [done|]. split; [done|]. split; [done|].
  split; [by apply display_all_objects|].
  apply Forall_fmap. eapply Forall_impl; [exact Hall|].
  intros t Ht. simpl.
  destruct t as [ti d [] |ti d cat []]; try done;
    apply prefix_occurs; by eexists.
Qed.

Lemma sample_state_flagged : completed_flagged sample_state.
Proof.
  intros p t ->%list_elem_of_singleton Ht. vm_compute in Ht.
  by injection Ht as <-.
Qed.

Lemma completed_stay_flagged_witness :
  ∃ s' ds, run [Complete "Report"; Complete "Buy milk"] sample_state = Ok s'
    ∧ objects s' (completedTasks s') = Some ds
    ∧ Forall (λ t, TaskBase.isCompleted t = true) ds
    ∧ viewCompleted s' = Ok (TaskBase.display <$> ds)
    ∧ Forall (λ line, String.prefix "[X] " line = true)
        (TaskBase.display <$> ds).
Proof.
  apply (completed_stay_flagged _ sample_state sample_state_wf
           sample_state_flagged).
  repeat constructor; simpl; intros o Ho;
    repeat (apply elem_of_cons in Ho as [Ho|Ho]; [discriminate|]);
    by apply elem_of_nil in Ho.
Defined.

Example unflagged_done_line :
  ∃ s, loadLine "DONE:Report;10.10.2024;0" empty_state = Ok s
       ∧ viewCompleted s
         = Ok [TaskBase.display (Task "Report" "10.10.2024" false)].
Proof. eexists. split; [vm_compute; reflexivity|]. reflexivity. Qed.
